(** * Authentication layer of the secured MCP server (src/index.ts)

    A shallow embedding of the server's authentication code: the credential
    check [validateAuth], the header middleware [injectAuthMiddleware], and
    the two OAuth2 endpoints [/oauth/token] and [/oauth/revoke] together with
    the in-memory token store [validTokens] they share.

    - The token store [validTokens : Set<string>] is a [gset string], passed
      explicitly through every handler.
    - The wall clock [Date.now()] is an explicit argument (milliseconds).
    - A thrown exception is the [Throw] case of [Result].
    - Every handler is synchronous and runs to completion on the event
      loop, so requests served concurrently are a sequence of handler
      calls in some order ([run], [issue_all]).
    - The [jsonwebtoken] package is not part of the repository: its compact
      serialisation is an interface ([JwtLib]) with the laws the package
      documents, and [jwt_sign] / [jwt_verify] are written over it. *)

From Stdlib Require Import ZArith String Ascii Bool List Lia Floats.
From stdpp Require Import base decidable option list gmap sets strings pretty.

Local Open Scope string_scope.

(* [set_solver] clears hypotheses by name and warns when one is absent. *)
#[local] Set Warnings "-clear-no-such-hyp".

(** ** JavaScript values and exceptions *)

(** A field of a parsed JSON body.  [JUndefined] is an absent field.  Numbers
    are kept to the integers: a fractional number is truthy and equal to no
    string, exactly as a non-zero integer is. *)
Inductive JsValue : Type :=
  | JUndefined
  | JNull
  | JBool (b : bool)
  | JNum (n : Z)
  | JStr (s : string)
  | JObject.

#[global] Instance JsValue_eq_dec : EqDecision JsValue.
Proof. solve_decision. Defined.

(** [if (v)] on a JSON value. *)
Definition truthy (v : JsValue) : bool :=
  match v with
  | JUndefined | JNull => false
  | JBool b => b
  | JNum n => negb (n =? 0)%Z
  | JStr s => negb (s =? "")
  | JObject => true
  end.

(** [v === s] for a string literal [s]. *)
Definition strict_eq_str (v : JsValue) (s : string) : bool :=
  match v with
  | JStr x => (x =? s)
  | _ => false
  end.

(** [if (s)] for [s : string | undefined]. *)
Definition truthy_str (s : option string) : bool :=
  match s with
  | Some x => negb (x =? "")
  | None => false
  end.

(** Outcome of a call that may throw. *)
Inductive Result (A E : Type) : Type :=
  | Ok (a : A)
  | Throw (e : E).
Arguments Ok {A E} a.
Arguments Throw {A E} e.

(** ** Configuration constants (index.ts, lines 17-21) *)

Definition VALID_API_KEY : string := "mcp-secret-key-12345".
Definition JWT_SECRET : string := "mcp-jwt-secret-key-do-not-use-in-production".
Definition OAUTH_CLIENT_ID : string := "mcp-client".
Definition OAUTH_CLIENT_SECRET : string := "mcp-client-secret".

(** ** The jsonwebtoken package *)

Module Jwt.

(** The claim set of a token.  [exp] is absent until signing adds it. *)
Record Claims : Type := mkClaims {
  client_id : string;
  scope : string;
  iat : Z;
  exp : option Z
}.

(** What [jwt.verify] throws. *)
Inductive JwtError : Type :=
  | JwtMalformed        (* JsonWebTokenError: jwt must be provided / jwt malformed *)
  | InvalidSignature    (* JsonWebTokenError: invalid signature *)
  | TokenExpired.       (* TokenExpiredError: jwt expired *)

(** The compact serialisation the package builds on: encoding a claim set
    under a key, reading the claim set back, and checking the signature.
    The laws are the ones every JWS implementation satisfies: a token
    decodes to the claims it was made from, its signature verifies under
    the key it was signed with, and the empty string is not a token. *)
Record JwtLib : Type := mkJwtLib {
  jws_encode : Claims -> string -> string;
  jws_decode : string -> option Claims;
  jws_signature_ok : string -> string -> bool;
  decode_encode : forall c key, jws_decode (jws_encode c key) = Some c;
  signature_encode : forall c key, jws_signature_ok (jws_encode c key) key = true;
  decode_empty : jws_decode "" = None
}.

(** [Math.floor(Date.now() / 1000)]. *)
Definition clockTimestamp (now_ms : Z) : Z := (now_ms / 1000)%Z.

(** [jwt.sign(payload, key, { expiresIn })] for a payload that carries its
    own [iat]: the package sets [exp = iat + expiresIn] and serialises. *)
Definition jwt_sign (J : JwtLib) (payload : Claims) (key : string) (expiresIn : Z) : string :=
  jws_encode J
    {| client_id := client_id payload;
       scope := scope payload;
       iat := iat payload;
       exp := Some (iat payload + expiresIn)%Z |}
    key.

(** [jwt.verify(token, key)] at clock reading [now_ms]: the token must
    parse, the signature must verify, and when an [exp] claim is present
    the clock must still be strictly before it
    ([clockTimestamp >= payload.exp] throws TokenExpiredError).  The
    optional checks of the package ([nbf], audience, issuer, ...) concern
    claims and options this server never uses and are left out. *)
Definition jwt_verify (J : JwtLib) (token key : string) (now_ms : Z) : Result Claims JwtError :=
  match jws_decode J token with
  | None => Throw JwtMalformed
  | Some payload =>
      if negb (jws_signature_ok J token key) then Throw InvalidSignature
      else
        match exp payload with
        | Some e =>
            if (clockTimestamp now_ms >=? e)%Z then Throw TokenExpired
            else Ok payload
        | None => Ok payload
        end
  end.

End Jwt.

(** ** validateAuth (index.ts, lines 29-66) *)

Inductive AuthType : Type := apikey | oauth2.

Inductive ErrorCode : Type := InvalidRequest | InvalidParams | MethodNotFound.

Record McpError : Type := mkMcpError {
  code : ErrorCode;
  message : string
}.

(** What can be thrown inside the [try] block of [validateAuth]. *)
Inductive JsError : Type :=
  | JwtThrown (e : Jwt.JwtError)
  | PlainError (msg : string).

Definition invalid_token_error : McpError :=
  mkMcpError InvalidRequest "Invalid or expired OAuth2 token".

Definition auth_required_error : McpError :=
  mkMcpError InvalidRequest
    "Authentication required. Provide either 'x-api-key' header or 'Authorization: Bearer' token.".

(** [apiKey && apiKey === VALID_API_KEY]. *)
Definition api_key_accepted (apiKey : option string) : bool :=
  truthy_str apiKey &&
  match apiKey with
  | Some k => (k =? VALID_API_KEY)
  | None => false
  end.

(** The body of the [try] block: verify, then look the token up. *)
Definition try_bearer (J : Jwt.JwtLib) (validTokens : gset string) (now_ms : Z)
    (token : string) : Result AuthType JsError :=
  match Jwt.jwt_verify J token JWT_SECRET now_ms with
  | Throw e => Throw (JwtThrown e)
  | Ok _decoded =>
      if bool_decide (token ∈ validTokens) then Ok oauth2
      else Throw (PlainError "Token not in valid set")
  end.

Definition validateAuth (J : Jwt.JwtLib) (validTokens : gset string) (now_ms : Z)
    (apiKey bearerToken : option string) : Result AuthType McpError :=
  if api_key_accepted apiKey then Ok apikey
  else
    match bearerToken with
    | Some token =>
        if truthy_str (Some token) then
          match try_bearer J validTokens now_ms token with
          | Ok a => Ok a
          | Throw _ => Throw invalid_token_error
          end
        else Throw auth_required_error
    | None => Throw auth_required_error
    end.

(** ** Credentials in the request metadata (index.ts, lines 68-80, 255-291) *)

Module Mcp.

(** [params._meta] of a JSON-RPC message, as [getCredentialsFromMeta]
    reads it. *)
Record Meta : Type := mkMeta {
  apiKey : option string;
  bearerToken : option string
}.

Record Params : Type := mkParams { _meta : option Meta }.

(** A parsed JSON body; [params] may be absent. *)
Record Body : Type := mkBody { params : option Params }.

(** The parts of an HTTP request the middleware touches.  [body = None]
    is a request without a JSON object body. *)
Record Request : Type := mkRequest {
  x_api_key : option string;
  authorization : option string;
  body : option Body
}.

End Mcp.

Definition getCredentialsFromMeta (meta : option Mcp.Meta) : option string * option string :=
  match meta with
  | None => (None, None)
  | Some m => (Mcp.apiKey m, Mcp.bearerToken m)
  end.

(** [authHeader.substring(7)]. *)
Definition substring_from (n : nat) (s : string) : string :=
  String.substring n (String.length s - n) s.

(** Lines 267-272 of [injectAuthMiddleware]: the local [bearerToken]. *)
Definition extractBearerToken (authHeader : option string) : option string :=
  match authHeader with
  | Some h =>
      if truthy_str (Some h) && String.prefix "Bearer " h
      then Some (substring_from 7 h)
      else None
  | None => None
  end.

(** The request as the middleware leaves it before calling [next()]. *)
Definition injectAuthMiddleware (req : Mcp.Request) : Mcp.Request :=
  let apiKey := Mcp.x_api_key req in
  let bearerToken := extractBearerToken (Mcp.authorization req) in
  match Mcp.body req with
  | Some b =>
      let p := match Mcp.params b with
               | Some p => p
               | None => Mcp.mkParams None
               end in
      let m := match Mcp._meta p with
               | Some m => m
               | None => Mcp.mkMeta None None
               end in
      let m := if truthy_str apiKey
               then Mcp.mkMeta apiKey (Mcp.bearerToken m) else m in
      let m := if truthy_str bearerToken
               then Mcp.mkMeta (Mcp.apiKey m) bearerToken else m in
      Mcp.mkRequest (Mcp.x_api_key req) (Mcp.authorization req)
        (Some (Mcp.mkBody (Some (Mcp.mkParams (Some m)))))
  | None => req
  end.

(** The first two lines of both tool handlers, run on the message the
    middleware hands over: [request.params?._meta] into [validateAuth]. *)
Definition authenticate_message (J : Jwt.JwtLib) (validTokens : gset string) (now_ms : Z)
    (msg : Mcp.Body) : Result AuthType McpError :=
  let meta := match Mcp.params msg with
              | Some p => Mcp._meta p
              | None => None
              end in
  let '(apiKey, bearerToken) := getCredentialsFromMeta meta in
  validateAuth J validTokens now_ms apiKey bearerToken.

(** ** The OAuth2 endpoints (index.ts, lines 310-371) *)

Module TokenRequest.
(** [const { grant_type, client_id, client_secret } = req.body]. *)
Record t : Type := mk {
  grant_type : JsValue;
  client_id : JsValue;
  client_secret : JsValue
}.
End TokenRequest.

Inductive ResponseBody : Type :=
  | TokenResponse (access_token token_type : string) (expires_in : Z) (scope : string)
  | ErrorResponse (error error_description : string)
  | RevokeResponse (revoked : bool).

Record HttpResponse : Type := mkResponse {
  status : Z;
  json : ResponseBody
}.

(** The string held by a value already known to be a string. *)
Definition as_string (v : JsValue) : string :=
  match v with
  | JStr s => s
  | _ => ""
  end.

(** [{ expiresIn: "1h" }] in seconds. *)
Definition expiresIn_1h : Z := 3600.

(** The claims handed to [jwt.sign] at clock reading [now_ms]. *)
Definition token_payload (now_ms : Z) (client_id : JsValue) : Jwt.Claims :=
  {| Jwt.client_id := as_string client_id;
     Jwt.scope := "mcp:tools";
     Jwt.iat := (now_ms / 1000)%Z;
     Jwt.exp := None |}.

(** POST /oauth/token: the response and the token store afterwards. *)
Definition oauth_token (J : Jwt.JwtLib) (validTokens : gset string) (now_ms : Z)
    (body : TokenRequest.t) : HttpResponse * gset string :=
  if negb (strict_eq_str (TokenRequest.grant_type body) "client_credentials") then
    (mkResponse 400
       (ErrorResponse "unsupported_grant_type"
          "Only client_credentials grant type is supported"),
     validTokens)
  else if negb (strict_eq_str (TokenRequest.client_id body) OAUTH_CLIENT_ID)
          || negb (strict_eq_str (TokenRequest.client_secret body) OAUTH_CLIENT_SECRET) then
    (mkResponse 401 (ErrorResponse "invalid_client" "Invalid client credentials"),
     validTokens)
  else
    let accessToken :=
      Jwt.jwt_sign J (token_payload now_ms (TokenRequest.client_id body))
        JWT_SECRET expiresIn_1h in
    (mkResponse 200 (TokenResponse accessToken "Bearer" 3600 "mcp:tools"),
     {[ accessToken ]} ∪ validTokens).

(** [validTokens.delete(token)]: only a string can be a member. *)
Definition set_delete (token : JsValue) (validTokens : gset string) : gset string :=
  match token with
  | JStr s => validTokens ∖ {[ s ]}
  | _ => validTokens
  end.

(** POST /oauth/revoke with [const { token } = req.body]. *)
Definition oauth_revoke (validTokens : gset string) (token : JsValue)
    : HttpResponse * gset string :=
  if negb (truthy token) then
    (mkResponse 400 (ErrorResponse "invalid_request" "Token parameter is required"),
     validTokens)
  else
    (mkResponse 200 (RevokeResponse true), set_delete token validTokens).

(** The request body with the configured credentials. *)
Definition valid_token_request : TokenRequest.t :=
  TokenRequest.mk (JStr "client_credentials") (JStr OAUTH_CLIENT_ID) (JStr OAUTH_CLIENT_SECRET).

(** The token issued to the configured client at clock reading [now_ms]. *)
Definition token_at (J : Jwt.JwtLib) (now_ms : Z) : string :=
  Jwt.jwt_sign J (token_payload now_ms (JStr OAUTH_CLIENT_ID)) JWT_SECRET expiresIn_1h.

(** The token a response carries, if any. *)
Definition issued_token (r : HttpResponse) : option string :=
  match json r with
  | TokenResponse t _ _ _ => Some t
  | _ => None
  end.

(** A run of issuance calls with the configured credentials, one per clock
    reading, in the order the event loop serves them: the tokens handed out
    and the token store at the end. *)
Fixpoint issue_all (J : Jwt.JwtLib) (validTokens : gset string) (clocks : list Z)
    : list string * gset string :=
  match clocks with
  | [] => ([], validTokens)
  | now_ms :: rest =>
      let '(r, validTokens') := oauth_token J validTokens now_ms valid_token_request in
      let '(toks, final) := issue_all J validTokens' rest in
      (match issued_token r with Some t => t :: toks | None => toks end, final)
  end.

(** ** Runs of the two endpoints *)

(** One call to an OAuth2 endpoint. *)
Inductive Op : Type :=
  | Issue (now_ms : Z) (body : TokenRequest.t)
  | Revoke (token : JsValue).

Definition step (J : Jwt.JwtLib) (validTokens : gset string) (op : Op)
    : HttpResponse * gset string :=
  match op with
  | Issue now_ms body => oauth_token J validTokens now_ms body
  | Revoke token => oauth_revoke validTokens token
  end.

(** The token store after a sequence of calls. *)
Definition run (J : Jwt.JwtLib) (validTokens : gset string) (ops : list Op) : gset string :=
  fold_left (fun s op => snd (step J s op)) ops validTokens.

(** The call hands out the string [t] as an access token. *)
Definition hands_out (J : Jwt.JwtLib) (op : Op) (t : string) : Prop :=
  exists s, issued_token (fst (step J s op)) = Some t.

(** ** A reference implementation of the JWS interface

    A small self-delimiting serialisation that satisfies every law of
    [Jwt.JwtLib]: it shows the laws are jointly satisfiable and lets the
    handlers be evaluated on concrete requests.  The signature part is the
    key itself, which is all the laws ask for (they speak of verification
    under the signing key, not of unforgeability). *)

Module RefJwt.

(** A positive number, least significant bit first, closed by a dot. *)
Fixpoint put_pos (p : positive) (rest : string) : string :=
  match p with
  | xI q => String "1" (put_pos q rest)
  | xO q => String "0" (put_pos q rest)
  | xH => String "." rest
  end.

Fixpoint get_pos (s : string) : option (positive * string) :=
  match s with
  | EmptyString => None
  | String c s' =>
      if Ascii.eqb c "." then Some (xH, s')
      else if Ascii.eqb c "1" then
        match get_pos s' with Some (q, r) => Some (xI q, r) | None => None end
      else if Ascii.eqb c "0" then
        match get_pos s' with Some (q, r) => Some (xO q, r) | None => None end
      else None
  end.

Definition put_Z (z : Z) (rest : string) : string :=
  match z with
  | Z0 => String "z" rest
  | Zpos p => String "p" (put_pos p rest)
  | Zneg p => String "m" (put_pos p rest)
  end.

Definition get_Z (s : string) : option (Z * string) :=
  match s with
  | EmptyString => None
  | String c s' =>
      if Ascii.eqb c "z" then Some (Z0, s')
      else if Ascii.eqb c "p" then
        match get_pos s' with Some (q, r) => Some (Zpos q, r) | None => None end
      else if Ascii.eqb c "m" then
        match get_pos s' with Some (q, r) => Some (Zneg q, r) | None => None end
      else None
  end.

Definition put_exp (e : option Z) (rest : string) : string :=
  match e with
  | None => String "n" rest
  | Some z => String "e" (put_Z z rest)
  end.

Definition get_exp (s : string) : option (option Z * string) :=
  match s with
  | EmptyString => None
  | String c s' =>
      if Ascii.eqb c "n" then Some (None, s')
      else if Ascii.eqb c "e" then
        match get_Z s' with Some (z, r) => Some (Some z, r) | None => None end
      else None
  end.

(** The first [n] characters of a string and what follows them. *)
Fixpoint split_at (n : nat) (s : string) : option (string * string) :=
  match n with
  | O => Some (EmptyString, s)
  | S k =>
      match s with
      | EmptyString => None
      | String c s' =>
          match split_at k s' with
          | Some (a, b) => Some (String c a, b)
          | None => None
          end
      end
  end.

(** A string, preceded by its length. *)
Definition put_str (s rest : string) : string :=
  put_pos (Pos.of_succ_nat (String.length s)) (s ++ rest).

Definition get_str (s : string) : option (string * string) :=
  match get_pos s with
  | Some (p, r) => split_at (Nat.pred (Pos.to_nat p)) r
  | None => None
  end.

Definition encode (c : Jwt.Claims) (key : string) : string :=
  put_Z (Jwt.iat c)
    (put_exp (Jwt.exp c)
       (put_str (Jwt.client_id c) (put_str (Jwt.scope c) key))).

(** The claims of a token and its signature part. *)
Definition parse (token : string) : option (Jwt.Claims * string) :=
  match get_Z token with
  | Some (i, r1) =>
      match get_exp r1 with
      | Some (e, r2) =>
          match get_str r2 with
          | Some (cid, r3) =>
              match get_str r3 with
              | Some (sc, sig) => Some (Jwt.mkClaims cid sc i e, sig)
              | None => None
              end
          | None => None
          end
      | None => None
      end
  | None => None
  end.

Definition decode (token : string) : option Jwt.Claims :=
  match parse token with
  | Some (c, _) => Some c
  | None => None
  end.

Definition signature_ok (token key : string) : bool :=
  match parse token with
  | Some (_, sig) => (sig =? key)
  | None => false
  end.

Lemma get_put_pos p rest : get_pos (put_pos p rest) = Some (p, rest).
Proof.
  induction p as [q IH | q IH | ]; simpl; [rewrite IH | rewrite IH | ]; reflexivity.
Qed.

Lemma get_put_Z z rest : get_Z (put_Z z rest) = Some (z, rest).
Proof.
  destruct z as [ | p | p]; simpl; [ | rewrite get_put_pos | rewrite get_put_pos ]; reflexivity.
Qed.

Lemma get_put_exp e rest : get_exp (put_exp e rest) = Some (e, rest).
Proof.
  destruct e as [z | ]; simpl; [rewrite get_put_Z | ]; reflexivity.
Qed.

Lemma split_at_app s rest : split_at (String.length s) (s ++ rest) = Some (s, rest).
Proof.
  induction s as [ | c s IH]; simpl; [ | rewrite IH ]; reflexivity.
Qed.

Lemma get_put_str s rest : get_str (put_str s rest) = Some (s, rest).
Proof.
  unfold get_str, put_str. rewrite get_put_pos.
  rewrite SuccNat2Pos.id_succ. simpl. apply split_at_app.
Qed.

Lemma parse_encode c key : parse (encode c key) = Some (c, key).
Proof.
  unfold parse, encode.
  rewrite get_put_Z, get_put_exp, !get_put_str.
  destruct c; reflexivity.
Qed.

Lemma ref_decode_encode c key : decode (encode c key) = Some c.
Proof. unfold decode. rewrite parse_encode. reflexivity. Qed.

Lemma ref_signature_encode c key : signature_ok (encode c key) key = true.
Proof. unfold signature_ok. rewrite parse_encode. apply String.eqb_refl. Qed.

Lemma ref_decode_empty : decode "" = None.
Proof. reflexivity. Qed.

Definition lib : Jwt.JwtLib :=
  Jwt.mkJwtLib encode decode signature_ok
    ref_decode_encode ref_signature_encode ref_decode_empty.

End RefJwt.

(** ** Concrete requests against the reference implementation *)

(** The token the reference implementation issues at [Date.now() = 5000]. *)
Definition ref_token : string := Eval vm_compute in token_at RefJwt.lib 5000.

(** The same claims signed under a key that is not the server's. *)
Definition forged_token : string :=
  Eval vm_compute in
    Jwt.jwt_sign RefJwt.lib (token_payload 5000 (JStr OAUTH_CLIENT_ID)) "another-key" expiresIn_1h.

(** * Properties *)

(** ** Basic facts about the embedding *)

Lemma truthy_str_Some s : truthy_str (Some s) = true <-> s <> "".
Proof.
  simpl. rewrite negb_true_iff. split.
  - intros H ->. discriminate.
  - intros H. apply String.eqb_neq. exact H.
Qed.

Lemma api_key_accepted_iff k : api_key_accepted k = true <-> k = Some VALID_API_KEY.
Proof.
  unfold api_key_accepted. destruct k as [s | ]; simpl.
  - rewrite andb_true_iff, negb_true_iff. split.
    + intros [_ H]. apply String.eqb_eq in H. congruence.
    + intros [= ->]. split; reflexivity.
  - split; discriminate.
Qed.

Lemma strict_eq_str_iff v s : strict_eq_str v s = true <-> v = JStr s.
Proof.
  destruct v; simpl; try (split; discriminate).
  rewrite String.eqb_eq. split; congruence.
Qed.

Section WithJwt.

Variable J : Jwt.JwtLib.

(** [jwt.verify] returns only for a well-formed token whose signature
    verifies and whose expiry, if it has one, lies in the future. *)
Lemma jwt_verify_Ok token key now_ms payload :
  Jwt.jwt_verify J token key now_ms = Ok payload <->
  Jwt.jws_decode J token = Some payload /\
  Jwt.jws_signature_ok J token key = true /\
  (forall e, Jwt.exp payload = Some e -> (Jwt.clockTimestamp now_ms < e)%Z).
Proof.
  unfold Jwt.jwt_verify.
  destruct (Jwt.jws_decode J token) as [p | ] eqn:Hd.
  2: { split; [discriminate | intros [[=] _]]. }
  destruct (Jwt.jws_signature_ok J token key) eqn:Hs; simpl.
  2: { split; [discriminate | intros (_ & [=] & _)]. }
  destruct (Jwt.exp p) as [e | ] eqn:He.
  - destruct (Z.geb_spec (Jwt.clockTimestamp now_ms) e) as [Hge | Hlt].
    + split; [discriminate | ].
      intros ([= <-] & _ & Hexp). specialize (Hexp e He). lia.
    + split.
      * intros [= <-]. repeat split; trivial. intros e' He'.
        rewrite He in He'. injection He' as <-. exact Hlt.
      * intros ([= <-] & _). reflexivity.
  - split.
    + intros [= <-]. repeat split; trivial. intros e' He'. congruence.
    + intros ([= <-] & _). reflexivity.
Qed.

(** A freshly signed token decodes to the payload extended with [exp]. *)
Lemma decode_sign payload key ttl :
  Jwt.jws_decode J (Jwt.jwt_sign J payload key ttl) =
  Some (Jwt.mkClaims (Jwt.client_id payload) (Jwt.scope payload) (Jwt.iat payload)
          (Some (Jwt.iat payload + ttl)%Z)).
Proof. unfold Jwt.jwt_sign. apply Jwt.decode_encode. Qed.

Lemma sign_nonempty payload key ttl : Jwt.jwt_sign J payload key ttl <> "".
Proof.
  intros H. pose proof (decode_sign payload key ttl) as Hd.
  rewrite H, Jwt.decode_empty in Hd. discriminate.
Qed.

(** Verification of a freshly signed token depends on the clock alone. *)
Lemma verify_sign payload key ttl now_ms :
  (Jwt.clockTimestamp now_ms < Jwt.iat payload + ttl)%Z ->
  exists p, Jwt.jwt_verify J (Jwt.jwt_sign J payload key ttl) key now_ms = Ok p.
Proof.
  intros Hlt. eexists. apply jwt_verify_Ok. split; [apply decode_sign | ].
  split; [apply Jwt.signature_encode | ].
  simpl. intros e [= <-]. exact Hlt.
Qed.

Lemma verify_sign_expired payload key ttl now_ms :
  (Jwt.iat payload + ttl <= Jwt.clockTimestamp now_ms)%Z ->
  Jwt.jwt_verify J (Jwt.jwt_sign J payload key ttl) key now_ms = Throw Jwt.TokenExpired.
Proof.
  intros Hge. unfold Jwt.jwt_verify. rewrite decode_sign.
  unfold Jwt.jwt_sign. rewrite Jwt.signature_encode. simpl.
  destruct (Z.geb_spec (Jwt.clockTimestamp now_ms) (Jwt.iat payload + ttl)); [reflexivity | lia].
Qed.

(** Two signed tokens are the same string only if their payloads agree. *)
Lemma sign_inj p1 p2 key ttl :
  Jwt.jwt_sign J p1 key ttl = Jwt.jwt_sign J p2 key ttl -> Jwt.iat p1 = Jwt.iat p2.
Proof.
  intros H. pose proof (decode_sign p1 key ttl) as H1.
  rewrite H, decode_sign in H1. congruence.
Qed.

(** The shape of every outcome of [validateAuth]. *)
Lemma validateAuth_cases validTokens now_ms apiKey bearerToken :
  validateAuth J validTokens now_ms apiKey bearerToken =
    if api_key_accepted apiKey then Ok apikey
    else if truthy_str bearerToken then
      match bearerToken with
      | Some token =>
          match Jwt.jwt_verify J token JWT_SECRET now_ms with
          | Ok _ => if bool_decide (token ∈ validTokens) then Ok oauth2
                    else Throw invalid_token_error
          | Throw _ => Throw invalid_token_error
          end
      | None => Throw auth_required_error
      end
    else Throw auth_required_error.
Proof.
  unfold validateAuth, try_bearer.
  destruct (api_key_accepted apiKey); [reflexivity | ].
  destruct bearerToken as [token | ]; [ | reflexivity].
  destruct (truthy_str (Some token)); [ | reflexivity].
  destruct (Jwt.jwt_verify J token JWT_SECRET now_ms); [ | reflexivity].
  destruct (bool_decide (token ∈ validTokens)); reflexivity.
Qed.

Lemma validateAuth_oauth2_iff validTokens now_ms apiKey bearerToken :
  validateAuth J validTokens now_ms apiKey bearerToken = Ok oauth2 <->
  api_key_accepted apiKey = false /\
  exists token, bearerToken = Some token /\ token <> "" /\
    (exists p, Jwt.jwt_verify J token JWT_SECRET now_ms = Ok p) /\
    token ∈ validTokens.
Proof.
  rewrite validateAuth_cases.
  destruct (api_key_accepted apiKey).
  { split; [discriminate | intros [[=] _]]. }
  destruct bearerToken as [token | ].
  2: { simpl. split; [discriminate | intros (_ & t & [=] & _)]. }
  destruct (truthy_str (Some token)) eqn:Ht.
  2: { split; [discriminate | ]. intros (_ & t & [= <-] & Hne & _).
       apply truthy_str_Some in Hne. congruence. }
  apply truthy_str_Some in Ht.
  destruct (Jwt.jwt_verify J token JWT_SECRET now_ms) as [p | e] eqn:Hv.
  2: { split; [discriminate | ].
       intros (_ & t & [= <-] & _ & (p & Hp) & _). congruence. }
  case_bool_decide as Hin.
  - split; [ | reflexivity]. intros _. split; [reflexivity | ].
    exists token. repeat split; eauto.
  - split; [discriminate | ]. intros (_ & t & [= <-] & _ & _ & Hin'). contradiction.
Qed.

(** A non-empty bearer token without an accepted API key either
    authenticates as OAuth2 or gets the one generic rejection. *)
Lemma validateAuth_bearer validTokens now_ms apiKey token :
  api_key_accepted apiKey = false -> token <> "" ->
  validateAuth J validTokens now_ms apiKey (Some token) =
    if match Jwt.jwt_verify J token JWT_SECRET now_ms with Ok _ => true | Throw _ => false end
       && bool_decide (token ∈ validTokens)
    then Ok oauth2 else Throw invalid_token_error.
Proof.
  intros Hk Hne. rewrite validateAuth_cases, Hk.
  apply truthy_str_Some in Hne. rewrite Hne.
  destruct (Jwt.jwt_verify J token JWT_SECRET now_ms); simpl; [ | reflexivity].
  destruct (bool_decide (token ∈ validTokens)); reflexivity.
Qed.

End WithJwt.

(** ** The endpoints, case by case *)

Section Endpoints.

Variable J : Jwt.JwtLib.

Lemma oauth_token_success validTokens now_ms body :
  TokenRequest.grant_type body = JStr "client_credentials" ->
  TokenRequest.client_id body = JStr OAUTH_CLIENT_ID ->
  TokenRequest.client_secret body = JStr OAUTH_CLIENT_SECRET ->
  oauth_token J validTokens now_ms body =
    (mkResponse 200 (TokenResponse (token_at J now_ms) "Bearer" 3600 "mcp:tools"),
     {[ token_at J now_ms ]} ∪ validTokens).
Proof.
  intros Hg Hc Hs. unfold oauth_token, token_at. rewrite Hg, Hc, Hs. reflexivity.
Qed.

Lemma oauth_token_bad_grant validTokens now_ms body :
  TokenRequest.grant_type body <> JStr "client_credentials" ->
  oauth_token J validTokens now_ms body =
    (mkResponse 400
       (ErrorResponse "unsupported_grant_type"
          "Only client_credentials grant type is supported"),
     validTokens).
Proof.
  intros Hg. unfold oauth_token.
  destruct (strict_eq_str (TokenRequest.grant_type body) "client_credentials") eqn:E;
    [ | reflexivity].
  apply strict_eq_str_iff in E. contradiction.
Qed.

Lemma oauth_token_bad_client validTokens now_ms body :
  TokenRequest.grant_type body = JStr "client_credentials" ->
  TokenRequest.client_id body <> JStr OAUTH_CLIENT_ID \/
  TokenRequest.client_secret body <> JStr OAUTH_CLIENT_SECRET ->
  oauth_token J validTokens now_ms body =
    (mkResponse 401 (ErrorResponse "invalid_client" "Invalid client credentials"),
     validTokens).
Proof.
  intros Hg Hbad. unfold oauth_token. rewrite Hg. simpl.
  destruct (strict_eq_str (TokenRequest.client_id body) OAUTH_CLIENT_ID) eqn:Ec;
    [ | reflexivity].
  destruct (strict_eq_str (TokenRequest.client_secret body) OAUTH_CLIENT_SECRET) eqn:Es;
    [ | reflexivity].
  apply strict_eq_str_iff in Ec, Es. destruct Hbad; contradiction.
Qed.

(** Whatever the request, the call either issues [token_at J now_ms] and adds
    it to the store, or issues nothing and leaves the store alone. *)
Lemma oauth_token_cases validTokens now_ms body :
  (issued_token (fst (oauth_token J validTokens now_ms body)) = Some (token_at J now_ms) /\
   snd (oauth_token J validTokens now_ms body) = {[ token_at J now_ms ]} ∪ validTokens) \/
  (issued_token (fst (oauth_token J validTokens now_ms body)) = None /\
   snd (oauth_token J validTokens now_ms body) = validTokens).
Proof.
  destruct (decide (TokenRequest.grant_type body = JStr "client_credentials")) as [Hg | Hg].
  2: { right. rewrite oauth_token_bad_grant by exact Hg. split; reflexivity. }
  destruct (decide (TokenRequest.client_id body = JStr OAUTH_CLIENT_ID)) as [Hc | Hc].
  2: { right. rewrite oauth_token_bad_client by auto. split; reflexivity. }
  destruct (decide (TokenRequest.client_secret body = JStr OAUTH_CLIENT_SECRET)) as [Hs | Hs].
  2: { right. rewrite oauth_token_bad_client by auto. split; reflexivity. }
  left. rewrite oauth_token_success by assumption. split; reflexivity.
Qed.

Lemma oauth_revoke_store validTokens token :
  snd (oauth_revoke validTokens token) ⊆ validTokens /\
  forall t, token <> JStr t -> (t ∈ snd (oauth_revoke validTokens token) <-> t ∈ validTokens).
Proof.
  unfold oauth_revoke. destruct (truthy token); simpl; [ | split; [set_solver | tauto]].
  destruct token; simpl; try (split; [set_solver | tauto]).
  split; [set_solver | ]. intros t Hne. assert (t <> s) by congruence. set_solver.
Qed.

Lemma oauth_revoke_removes validTokens t :
  t <> "" -> snd (oauth_revoke validTokens (JStr t)) = validTokens ∖ {[ t ]}.
Proof.
  intros Hne. unfold oauth_revoke. simpl.
  apply String.eqb_neq in Hne. rewrite Hne. reflexivity.
Qed.

Lemma hands_out_revoke token t : ~ hands_out J (Revoke token) t.
Proof.
  intros [s H]. simpl in H. unfold oauth_revoke in H.
  destruct (truthy token); discriminate.
Qed.

Lemma hands_out_issue now_ms body t :
  hands_out J (Issue now_ms body) t -> t = token_at J now_ms.
Proof.
  intros [s H]. simpl in H.
  destruct (oauth_token_cases s now_ms body) as [[Hi _] | [Hi _]]; congruence.
Qed.

(** A string outside the store stays outside as long as no call hands it out. *)
Lemma step_keeps_absent validTokens op t :
  t ∉ validTokens -> ~ hands_out J op t -> t ∉ snd (step J validTokens op).
Proof.
  intros Hout Hno. destruct op as [now_ms body | token]; simpl.
  - destruct (oauth_token_cases validTokens now_ms body) as [[Hi ->] | [_ ->]];
      [ | exact Hout].
    assert (t <> token_at J now_ms).
    { intros ->. apply Hno. exists validTokens. exact Hi. }
    set_solver.
  - pose proof (oauth_revoke_store validTokens token) as [Hsub _]. set_solver.
Qed.

Lemma run_keeps_absent ops : forall validTokens t,
  t ∉ validTokens -> Forall (fun op => ~ hands_out J op t) ops ->
  t ∉ run J validTokens ops.
Proof.
  unfold run. induction ops as [ | op ops IH]; intros validTokens t Hout Hall; simpl.
  - exact Hout.
  - inversion Hall as [ | ? ? Hop Hrest]; subst.
    apply IH; [ | exact Hrest]. apply step_keeps_absent; assumption.
Qed.

End Endpoints.

(** ** Token validity *)

(** C1, as the code has it.  [validateAuth] answers [oauth2] for a bearer
    token only if the token's signature verifies under [JWT_SECRET], its
    expiry (when it has one) is still ahead of the clock, and the string is
    in the token store.  In particular, once a token is revoked it is not
    answered [oauth2], and, presented without an accepted API key, it gets
    the generic rejection on every later validation, also when its signature
    and expiry are still good, whatever calls come in between, until a call
    hands out the very same string again. *)
Theorem oauth2_only_if_signed_unexpired_registered
    (J : Jwt.JwtLib) (validTokens : gset string) (now_ms : Z)
    (apiKey : option string) (token : string) :
  (validateAuth J validTokens now_ms apiKey (Some token) = Ok oauth2 ->
     Jwt.jws_signature_ok J token JWT_SECRET = true /\
     (exists payload, Jwt.jws_decode J token = Some payload /\
        forall e, Jwt.exp payload = Some e -> (now_ms / 1000 < e)%Z) /\
     token ∈ validTokens) /\
  (forall ops,
     Forall (fun op => ~ hands_out J op token) ops ->
     let revoked := run J (snd (oauth_revoke validTokens (JStr token))) ops in
     validateAuth J revoked now_ms apiKey (Some token) <> Ok oauth2 /\
     (token <> "" -> api_key_accepted apiKey = false ->
      validateAuth J revoked now_ms apiKey (Some token) = Throw invalid_token_error)).
Proof.
  split.
  - intros H. apply validateAuth_oauth2_iff in H.
    destruct H as (_ & t & [= <-] & _ & (p & Hv) & Hin).
    apply jwt_verify_Ok in Hv. destruct Hv as (Hd & Hs & He).
    split; [exact Hs | ]. split; [ | exact Hin]. exists p. split; [exact Hd | exact He].
  - intros ops Hops revoked.
    assert (Hout : token = "" \/ token ∉ revoked).
    { destruct (decide (token = "")) as [-> | Hne]; [left; reflexivity | right].
      apply run_keeps_absent; [ | exact Hops].
      rewrite oauth_revoke_removes by exact Hne. set_solver. }
    split.
    + intros H. apply validateAuth_oauth2_iff in H.
      destruct H as (_ & t & [= <-] & Hne & _ & Hin). destruct Hout; contradiction.
    + intros Hne Hk. destruct Hout as [-> | Hout]; [contradiction | ].
      rewrite validateAuth_bearer by assumption.
      rewrite (bool_decide_eq_false_2 _ Hout), andb_false_r. reflexivity.
Qed.

(** The token issued at 5000 ms authenticates at 6000 ms; once revoked it is
    rejected, also after an unrelated revocation and an issuance in a later
    second, although [jwt.verify] still accepts it. *)
Lemma oauth2_only_if_signed_unexpired_registered_witness :
  (validateAuth RefJwt.lib {[ ref_token ]} 6000 None (Some ref_token) = Ok oauth2 /\
   Jwt.jws_signature_ok RefJwt.lib ref_token JWT_SECRET = true /\
   ref_token ∈ ({[ ref_token ]} : gset string)) /\
  (Forall (fun op => ~ hands_out RefJwt.lib op ref_token)
     [Revoke (JStr "x"); Issue 7000 valid_token_request] /\
   ref_token <> "" /\ api_key_accepted None = false /\
   (exists p, Jwt.jwt_verify RefJwt.lib ref_token JWT_SECRET 6000 = Ok p) /\
   validateAuth RefJwt.lib
     (run RefJwt.lib (snd (oauth_revoke {[ ref_token ]} (JStr ref_token)))
        [Revoke (JStr "x"); Issue 7000 valid_token_request])
     6000 None (Some ref_token) = Throw invalid_token_error).
Proof.
  pose proof (oauth2_only_if_signed_unexpired_registered
                RefJwt.lib {[ ref_token ]} 6000 None ref_token) as [Honly Hrev].
  assert (Hauth : validateAuth RefJwt.lib {[ ref_token ]} 6000 None (Some ref_token) = Ok oauth2)
    by (vm_compute; reflexivity).
  assert (Hops : Forall (fun op => ~ hands_out RefJwt.lib op ref_token)
                   [Revoke (JStr "x"); Issue 7000 valid_token_request]).
  { repeat constructor.
    - apply hands_out_revoke.
    - intros H. apply hands_out_issue in H. vm_compute in H. discriminate. }
  split.
  - destruct (Honly Hauth) as (Hs & _ & Hin). auto.
  - split; [exact Hops | ]. split; [discriminate | ]. split; [reflexivity | ].
    split; [eexists; vm_compute; reflexivity | ].
    apply (Hrev _ Hops); [discriminate | reflexivity].
Defined.

(** C1 as stated fails: a revoked token does not fail every later
    validation.  The token issued at 5000 ms is revoked and is out of the
    store; a second issuance at 5999 ms, in the same clock second, returns
    the same string and stores it again, and the token authenticates. *)
Lemma revoked_token_validates_after_reissue :
  issued_token (fst (oauth_token RefJwt.lib ∅ 5000 valid_token_request)) = Some ref_token /\
  (ref_token ∉ run RefJwt.lib ∅ [Issue 5000 valid_token_request; Revoke (JStr ref_token)]) /\
  validateAuth RefJwt.lib
    (run RefJwt.lib ∅ [Issue 5000 valid_token_request; Revoke (JStr ref_token)])
    5500 None (Some ref_token) = Throw invalid_token_error /\
  validateAuth RefJwt.lib
    (run RefJwt.lib ∅
       [Issue 5000 valid_token_request; Revoke (JStr ref_token);
        Issue 5999 valid_token_request])
    6000 None (Some ref_token) = Ok oauth2.
Proof.
  split; [vm_compute; reflexivity | ].
  split; [ | split; vm_compute; reflexivity].
  apply (bool_decide_eq_false_1 (ref_token ∈
           run RefJwt.lib ∅ [Issue 5000 valid_token_request; Revoke (JStr ref_token)])).
  vm_compute. reflexivity.
Qed.

(** C3. Every non-empty bearer token that [validateAuth] turns down is
    turned down with the same error, code [InvalidRequest] and message
    "Invalid or expired OAuth2 token": two rejections never differ, and a
    malformed token, a bad signature, a passed [exp] and a token missing
    from the store each lead to exactly that error. *)
Theorem bearer_rejection_is_uniform (J : Jwt.JwtLib) :
  (forall s1 s2 n1 n2 k1 k2 t1 t2 e1 e2,
     t1 <> "" -> t2 <> "" ->
     validateAuth J s1 n1 k1 (Some t1) = Throw e1 ->
     validateAuth J s2 n2 k2 (Some t2) = Throw e2 ->
     e1 = e2 /\
     code e1 = InvalidRequest /\ message e1 = "Invalid or expired OAuth2 token") /\
  (forall validTokens now_ms apiKey token,
     token <> "" -> api_key_accepted apiKey = false ->
     Jwt.jws_decode J token = None \/
     Jwt.jws_signature_ok J token JWT_SECRET = false \/
     (exists payload e, Jwt.jws_decode J token = Some payload /\
        Jwt.exp payload = Some e /\ (e <= now_ms / 1000)%Z) \/
     token ∉ validTokens ->
     validateAuth J validTokens now_ms apiKey (Some token) = Throw invalid_token_error).
Proof.
  assert (Hthrow : forall s n k t e, t <> "" ->
            validateAuth J s n k (Some t) = Throw e -> e = invalid_token_error).
  { intros s n k t e Hne H. rewrite validateAuth_cases in H.
    apply truthy_str_Some in Hne. rewrite Hne in H.
    destruct (api_key_accepted k); [discriminate | ].
    destruct (Jwt.jwt_verify J t JWT_SECRET n); [ | congruence].
    destruct (bool_decide (t ∈ s)); congruence. }
  split.
  - intros s1 s2 n1 n2 k1 k2 t1 t2 e1 e2 Hn1 Hn2 H1 H2.
    rewrite (Hthrow _ _ _ _ _ Hn1 H1), (Hthrow _ _ _ _ _ Hn2 H2).
    repeat split; reflexivity.
  - intros validTokens now_ms apiKey token Hne Hk Hcause.
    rewrite validateAuth_bearer by assumption.
    destruct (Jwt.jwt_verify J token JWT_SECRET now_ms) as [p | err] eqn:Hv;
      [ | reflexivity].
    apply jwt_verify_Ok in Hv. destruct Hv as (Hd & Hs & He).
    destruct Hcause as [Hc | [Hc | [(p' & e & Hd' & He' & Hle) | Hc]]].
    + congruence.
    + congruence.
    + assert (p' = p) by congruence. subst p'.
      specialize (He e He'). unfold Jwt.clockTimestamp in He. lia.
    + rewrite (bool_decide_eq_false_2 _ Hc). reflexivity.
Qed.

(** Four rejected tokens, one per cause, and the errors they get: a string
    that is no token, a token signed under another key, the issued token
    after its expiry, and the issued token after its revocation. *)
Lemma bearer_rejection_is_uniform_witness :
  Jwt.jws_decode RefJwt.lib "not-a-real-token" = None /\
  Jwt.jws_signature_ok RefJwt.lib forged_token JWT_SECRET = false /\
  validateAuth RefJwt.lib {[ ref_token ]} 6000 None (Some "not-a-real-token")
    = Throw invalid_token_error /\
  validateAuth RefJwt.lib {[ ref_token; forged_token ]} 6000 None (Some forged_token)
    = Throw invalid_token_error /\
  validateAuth RefJwt.lib {[ ref_token ]} 3605000 None (Some ref_token)
    = Throw invalid_token_error /\
  validateAuth RefJwt.lib ∅ 6000 None (Some ref_token)
    = Throw invalid_token_error.
Proof.
  pose proof (bearer_rejection_is_uniform RefJwt.lib) as [_ Hcause].
  split; [reflexivity | ]. split; [reflexivity | ].
  split; [ | split; [ | split]].
  - apply Hcause; [discriminate | reflexivity | left; reflexivity].
  - apply Hcause; [discriminate | reflexivity | right; left; reflexivity].
  - apply Hcause; [discriminate | reflexivity | ].
    right; right; left. eexists; exists 3605%Z.
    split; [vm_compute; reflexivity | ]. split; [reflexivity | vm_compute; discriminate].
  - apply Hcause; [discriminate | reflexivity | ].
    right; right; right. set_solver.
Defined.

(** ** Independence of the two authentication methods *)

(** C7. A request whose API key is the configured one is answered [apikey]
    whatever bearer token comes with it and whatever the token store holds,
    so the answer is the same in any two store states; and when the API key
    comparison fails, the answer is the one the bearer token alone would
    get: it does not depend on which key failed the comparison. *)
Theorem api_key_and_bearer_are_independent (J : Jwt.JwtLib) :
  (forall validTokens now_ms bearerToken,
     validateAuth J validTokens now_ms (Some VALID_API_KEY) bearerToken = Ok apikey) /\
  (forall s1 s2 n1 n2 b1 b2,
     validateAuth J s1 n1 (Some VALID_API_KEY) b1 =
     validateAuth J s2 n2 (Some VALID_API_KEY) b2) /\
  (forall validTokens now_ms apiKey bearerToken,
     apiKey <> Some VALID_API_KEY ->
     validateAuth J validTokens now_ms apiKey bearerToken =
     validateAuth J validTokens now_ms None bearerToken).
Proof.
  split; [ | split].
  - intros. reflexivity.
  - intros. reflexivity.
  - intros validTokens now_ms apiKey bearerToken Hk.
    rewrite !validateAuth_cases.
    destruct (api_key_accepted apiKey) eqn:E; [ | reflexivity].
    apply api_key_accepted_iff in E. contradiction.
Qed.

(** With the right key the answer is [apikey] before and after every token
    is gone; with a wrong key the issued token still authenticates as
    [oauth2], exactly as it does with no key at all. *)
Lemma api_key_and_bearer_are_independent_witness :
  validateAuth RefJwt.lib {[ ref_token ]} 6000 (Some VALID_API_KEY) (Some ref_token) = Ok apikey /\
  validateAuth RefJwt.lib ∅ 6000 (Some VALID_API_KEY) (Some ref_token) = Ok apikey /\
  Some "wrong-key" <> Some VALID_API_KEY /\
  validateAuth RefJwt.lib {[ ref_token ]} 6000 (Some "wrong-key") (Some ref_token) =
  validateAuth RefJwt.lib {[ ref_token ]} 6000 None (Some ref_token) /\
  validateAuth RefJwt.lib {[ ref_token ]} 6000 None (Some ref_token) = Ok oauth2.
Proof.
  pose proof (api_key_and_bearer_are_independent RefJwt.lib) as (Hkey & _ & Hbearer).
  split; [apply Hkey | ]. split; [apply Hkey | ].
  split; [discriminate | ].
  split; [apply Hbearer; discriminate | vm_compute; reflexivity].
Defined.

(** ** Revocation leaves other tokens alone *)

(** C10. Revoking [t] takes at most the entry [t] out of the token store:
    every other string [t'] is a member afterwards exactly when it was
    before, and [validateAuth] answers a request presenting [t'] the same
    way before and after. *)
Theorem revoke_frames_other_tokens
    (J : Jwt.JwtLib) (validTokens : gset string) (t t' : string)
    (now_ms : Z) (apiKey : option string) :
  t <> t' ->
  let after := snd (oauth_revoke validTokens (JStr t)) in
  validTokens ∖ {[ t ]} ⊆ after /\ after ⊆ validTokens /\
  (t' ∈ after <-> t' ∈ validTokens) /\
  validateAuth J after now_ms apiKey (Some t') =
  validateAuth J validTokens now_ms apiKey (Some t').
Proof.
  intros Hne after.
  destruct (oauth_revoke_store validTokens (JStr t)) as [Hsub Hmem].
  assert (Hiff : t' ∈ after <-> t' ∈ validTokens).
  { apply Hmem. congruence. }
  split; [ | split; [exact Hsub | split; [exact Hiff | ]]].
  - intros x Hx. apply elem_of_difference in Hx. destruct Hx as [Hx Hxt].
    apply Hmem; [ | exact Hx]. intros [= ->]. apply Hxt. set_solver.
  - rewrite !validateAuth_cases.
    destruct (api_key_accepted apiKey); [reflexivity | ].
    destruct (truthy_str (Some t')); [ | reflexivity].
    destruct (Jwt.jwt_verify J t' JWT_SECRET now_ms); [ | reflexivity].
    rewrite (bool_decide_ext _ _ Hiff). reflexivity.
Qed.

(** Two tokens issued a second apart; revoking the first leaves the second
    registered and authenticating. *)
Lemma revoke_frames_other_tokens_witness :
  ref_token <> token_at RefJwt.lib 6000 /\
  token_at RefJwt.lib 6000 ∈
    snd (oauth_revoke {[ ref_token; token_at RefJwt.lib 6000 ]} (JStr ref_token)) /\
  validateAuth RefJwt.lib
    (snd (oauth_revoke {[ ref_token; token_at RefJwt.lib 6000 ]} (JStr ref_token)))
    6500 None (Some (token_at RefJwt.lib 6000)) = Ok oauth2.
Proof.
  assert (Hne : ref_token <> token_at RefJwt.lib 6000) by (vm_compute; discriminate).
  pose proof (revoke_frames_other_tokens RefJwt.lib
                {[ ref_token; token_at RefJwt.lib 6000 ]}
                ref_token (token_at RefJwt.lib 6000) 6500 None Hne) as (_ & _ & Hiff & Hsame).
  split; [exact Hne | ]. split.
  - apply Hiff. set_solver.
  - rewrite Hsame. vm_compute. reflexivity.
Defined.

(** ** Token issuance *)

(** An issued token authenticates for as long as the clock, in whole
    seconds, is before [iat + 3600], provided it is in the store. *)
Lemma issued_token_valid_iff (J : Jwt.JwtLib) validTokens issued_ms now_ms apiKey :
  apiKey <> Some VALID_API_KEY ->
  token_at J issued_ms ∈ validTokens ->
  validateAuth J validTokens now_ms apiKey (Some (token_at J issued_ms)) =
    if (now_ms / 1000 <? issued_ms / 1000 + 3600)%Z
    then Ok oauth2 else Throw invalid_token_error.
Proof.
  intros Hk Hin.
  assert (Hk' : api_key_accepted apiKey = false).
  { destruct (api_key_accepted apiKey) eqn:E; [ | reflexivity].
    apply api_key_accepted_iff in E. contradiction. }
  rewrite validateAuth_bearer; [ | exact Hk' | apply sign_nonempty].
  rewrite (bool_decide_eq_true_2 _ Hin), andb_true_r.
  unfold token_at.
  destruct (Z.ltb_spec (now_ms / 1000) (issued_ms / 1000 + 3600)) as [Hlt | Hge].
  - destruct (verify_sign J (token_payload issued_ms (JStr OAUTH_CLIENT_ID))
                JWT_SECRET expiresIn_1h now_ms) as [p ->]; [exact Hlt | reflexivity].
  - rewrite verify_sign_expired; [reflexivity | exact Hge].
Qed.

(** C2. With the configured credentials (and the one supported grant type)
    the token endpoint answers 200 with [token_type] "Bearer", [expires_in]
    3600 and [scope] "mcp:tools", adds the returned [access_token] to the
    token store, and that token, presented as a bearer token before its
    expiry and while still in the store, authenticates as [oauth2]. *)
Theorem issuance_returns_a_valid_token
    (J : Jwt.JwtLib) (validTokens : gset string) (now_ms : Z) (body : TokenRequest.t) :
  TokenRequest.grant_type body = JStr "client_credentials" ->
  TokenRequest.client_id body = JStr OAUTH_CLIENT_ID ->
  TokenRequest.client_secret body = JStr OAUTH_CLIENT_SECRET ->
  exists access_token,
    fst (oauth_token J validTokens now_ms body) =
      mkResponse 200 (TokenResponse access_token "Bearer" 3600 "mcp:tools") /\
    snd (oauth_token J validTokens now_ms body) = {[ access_token ]} ∪ validTokens /\
    access_token ∈ snd (oauth_token J validTokens now_ms body) /\
    forall apiKey later_ms,
      apiKey <> Some VALID_API_KEY ->
      (later_ms / 1000 < now_ms / 1000 + 3600)%Z ->
      validateAuth J (snd (oauth_token J validTokens now_ms body)) later_ms apiKey
        (Some access_token) = Ok oauth2.
Proof.
  intros Hg Hc Hs. exists (token_at J now_ms).
  rewrite oauth_token_success by assumption. simpl.
  split; [reflexivity | ]. split; [reflexivity | ]. split; [set_solver | ].
  intros apiKey later_ms Hk Hlt.
  rewrite issued_token_valid_iff; [ | exact Hk | set_solver].
  apply Z.ltb_lt in Hlt. rewrite Hlt. reflexivity.
Qed.

Lemma issuance_returns_a_valid_token_witness :
  fst (oauth_token RefJwt.lib ∅ 5000 valid_token_request) =
    mkResponse 200 (TokenResponse ref_token "Bearer" 3600 "mcp:tools") /\
  validateAuth RefJwt.lib (snd (oauth_token RefJwt.lib ∅ 5000 valid_token_request))
    5000 None (Some ref_token) = Ok oauth2.
Proof.
  destruct (issuance_returns_a_valid_token RefJwt.lib ∅ 5000 valid_token_request
              eq_refl eq_refl eq_refl) as (tok & Hresp & _ & _ & Hauth).
  assert (Hresp' : fst (oauth_token RefJwt.lib ∅ 5000 valid_token_request) =
                   mkResponse 200 (TokenResponse ref_token "Bearer" 3600 "mcp:tools"))
    by (vm_compute; reflexivity).
  assert (tok = ref_token) by congruence. subst tok.
  split; [exact Hresp' | ].
  apply Hauth; [discriminate | vm_compute; reflexivity].
Defined.

(** C4. A request whose [grant_type] is not exactly "client_credentials"
    gets 400 [unsupported_grant_type], whatever credentials it carries (the
    grant type is looked at first); with the right grant type, a wrong
    [client_id] or a wrong [client_secret] (or both) gets 401
    [invalid_client]; in both cases no token is returned and the token
    store is unchanged. *)
Theorem issuance_errors_leave_store_unchanged
    (J : Jwt.JwtLib) (validTokens : gset string) (now_ms : Z) (body : TokenRequest.t) :
  (TokenRequest.grant_type body <> JStr "client_credentials" ->
     oauth_token J validTokens now_ms body =
       (mkResponse 400
          (ErrorResponse "unsupported_grant_type"
             "Only client_credentials grant type is supported"),
        validTokens) /\
     issued_token (fst (oauth_token J validTokens now_ms body)) = None) /\
  (TokenRequest.grant_type body = JStr "client_credentials" ->
   TokenRequest.client_id body <> JStr OAUTH_CLIENT_ID \/
   TokenRequest.client_secret body <> JStr OAUTH_CLIENT_SECRET ->
     oauth_token J validTokens now_ms body =
       (mkResponse 401 (ErrorResponse "invalid_client" "Invalid client credentials"),
        validTokens) /\
     issued_token (fst (oauth_token J validTokens now_ms body)) = None).
Proof.
  split.
  - intros Hg. rewrite oauth_token_bad_grant by exact Hg. split; reflexivity.
  - intros Hg Hbad. rewrite oauth_token_bad_client by assumption. split; reflexivity.
Qed.

(** A password grant with the right credentials is refused for its grant
    type; a client-credentials grant with a wrong secret is refused as
    [invalid_client]; the store keeps its one token both times. *)
Lemma issuance_errors_leave_store_unchanged_witness :
  oauth_token RefJwt.lib {[ ref_token ]} 5000
    (TokenRequest.mk (JStr "password") (JStr OAUTH_CLIENT_ID) (JStr OAUTH_CLIENT_SECRET)) =
    (mkResponse 400
       (ErrorResponse "unsupported_grant_type"
          "Only client_credentials grant type is supported"),
     {[ ref_token ]}) /\
  oauth_token RefJwt.lib {[ ref_token ]} 5000
    (TokenRequest.mk (JStr "client_credentials") (JStr OAUTH_CLIENT_ID) (JStr "wrong-secret")) =
    (mkResponse 401 (ErrorResponse "invalid_client" "Invalid client credentials"),
     {[ ref_token ]}).
Proof.
  split.
  - apply (issuance_errors_leave_store_unchanged RefJwt.lib {[ ref_token ]} 5000
             (TokenRequest.mk (JStr "password") (JStr OAUTH_CLIENT_ID)
                (JStr OAUTH_CLIENT_SECRET))).
    discriminate.
  - apply (issuance_errors_leave_store_unchanged RefJwt.lib {[ ref_token ]} 5000
             (TokenRequest.mk (JStr "client_credentials") (JStr OAUTH_CLIENT_ID)
                (JStr "wrong-secret"))).
    + reflexivity.
    + right. discriminate.
Defined.

(** C6. A token issued at clock reading [issued_ms], so with
    [iat = issued_ms / 1000] and the fixed lifetime of 3600 seconds, and
    still in the token store, authenticates when the clock reads
    [iat + 3599] seconds and gets the generic rejection when it reads
    [iat + 3601] seconds. *)
Theorem token_lifetime_boundary
    (J : Jwt.JwtLib) (validTokens registry : gset string) (issued_ms : Z)
    (apiKey : option string) (access_token : string) :
  issued_token (fst (oauth_token J validTokens issued_ms valid_token_request))
    = Some access_token ->
  access_token ∈ registry ->
  apiKey <> Some VALID_API_KEY ->
  (forall now_ms, (now_ms / 1000 = issued_ms / 1000 + 3599)%Z ->
     validateAuth J registry now_ms apiKey (Some access_token) = Ok oauth2) /\
  (forall now_ms, (now_ms / 1000 = issued_ms / 1000 + 3601)%Z ->
     validateAuth J registry now_ms apiKey (Some access_token) = Throw invalid_token_error).
Proof.
  intros Hissued Hin Hk.
  rewrite oauth_token_success in Hissued by reflexivity.
  simpl in Hissued. injection Hissued as <-.
  split; intros now_ms Hnow; rewrite issued_token_valid_iff by assumption; rewrite Hnow.
  - destruct (Z.ltb_spec (issued_ms / 1000 + 3599) (issued_ms / 1000 + 3600));
      [reflexivity | lia].
  - destruct (Z.ltb_spec (issued_ms / 1000 + 3601) (issued_ms / 1000 + 3600));
      [lia | reflexivity].
Qed.

(** The token issued at 5000 ms ([iat = 5]) at clock 3604 s and 3606 s. *)
Lemma token_lifetime_boundary_witness :
  issued_token (fst (oauth_token RefJwt.lib ∅ 5000 valid_token_request)) = Some ref_token /\
  validateAuth RefJwt.lib {[ ref_token ]} 3604000 None (Some ref_token) = Ok oauth2 /\
  validateAuth RefJwt.lib {[ ref_token ]} 3606000 None (Some ref_token)
    = Throw invalid_token_error.
Proof.
  assert (Hissued : issued_token (fst (oauth_token RefJwt.lib ∅ 5000 valid_token_request))
                    = Some ref_token) by (vm_compute; reflexivity).
  assert (Hin : ref_token ∈ ({[ ref_token ]} : gset string)) by set_solver.
  assert (Hk : (None : option string) <> Some VALID_API_KEY) by discriminate.
  destruct (token_lifetime_boundary RefJwt.lib ∅ {[ ref_token ]} 5000 None ref_token
              Hissued Hin Hk) as [Hbefore Hafter].
  split; [exact Hissued | ]. split.
  - apply Hbefore. vm_compute. reflexivity.
  - apply Hafter. vm_compute. reflexivity.
Defined.

(** ** Revocation *)

(** C5, as the code has it.  A revocation request whose [token] is truthy
    (any non-empty string in particular) is answered 200 [{revoked: true}],
    whether or not the token is in the store, so also for a token that was
    never issued or is revoked a second time; a request whose [token] is
    missing or falsy (the empty string, [null], [false], 0) is answered 400
    [invalid_request] and changes nothing; the answer never depends on the
    token store, so it does not reveal whether the token existed. *)
Theorem revoke_answers_by_truthiness (validTokens : gset string) (token : JsValue) :
  (truthy token = true ->
     fst (oauth_revoke validTokens token) = mkResponse 200 (RevokeResponse true) /\
     fst (oauth_revoke (snd (oauth_revoke validTokens token)) token)
       = mkResponse 200 (RevokeResponse true) /\
     snd (oauth_revoke (snd (oauth_revoke validTokens token)) token)
       = snd (oauth_revoke validTokens token)) /\
  (truthy token = false ->
     oauth_revoke validTokens token =
       (mkResponse 400 (ErrorResponse "invalid_request" "Token parameter is required"),
        validTokens)) /\
  oauth_revoke validTokens JUndefined =
    (mkResponse 400 (ErrorResponse "invalid_request" "Token parameter is required"),
     validTokens) /\
  (forall other : gset string,
     fst (oauth_revoke validTokens token) = fst (oauth_revoke other token)).
Proof.
  unfold oauth_revoke. split; [ | split; [ | split]].
  - intros Ht. rewrite Ht. simpl. split; [reflexivity | ]. split; [reflexivity | ].
    destruct token; simpl; try reflexivity. set_solver.
  - intros Ht. rewrite Ht. reflexivity.
  - reflexivity.
  - intros other. destruct (truthy token); reflexivity.
Qed.

(** Revoking a string that was never issued, twice in a row; and a request
    without a token. *)
Lemma revoke_answers_by_truthiness_witness :
  truthy (JStr "never-issued") = true /\
  fst (oauth_revoke ∅ (JStr "never-issued")) = mkResponse 200 (RevokeResponse true) /\
  fst (oauth_revoke (snd (oauth_revoke ∅ (JStr "never-issued"))) (JStr "never-issued"))
    = mkResponse 200 (RevokeResponse true) /\
  truthy JNull = false /\
  oauth_revoke {[ ref_token ]} JNull =
    (mkResponse 400 (ErrorResponse "invalid_request" "Token parameter is required"),
     {[ ref_token ]}).
Proof.
  pose proof (revoke_answers_by_truthiness ∅ (JStr "never-issued")) as (Hyes & _).
  pose proof (revoke_answers_by_truthiness {[ ref_token ]} JNull) as (_ & Hno & _).
  specialize (Hyes eq_refl). specialize (Hno eq_refl).
  destruct Hyes as (H1 & H2 & _).
  repeat split; assumption.
Defined.

(** C5 as stated fails: a request that carries the token value [""] is
    answered 400 [invalid_request], not [{revoked: true}]. *)
Lemma revoke_empty_string_is_refused :
  oauth_revoke {[ ref_token ]} (JStr "") =
    (mkResponse 400 (ErrorResponse "invalid_request" "Token parameter is required"),
     {[ ref_token ]}) /\
  fst (oauth_revoke {[ ref_token ]} (JStr "")) <> mkResponse 200 (RevokeResponse true).
Proof. split; [reflexivity | discriminate]. Qed.

(** ** Bearer token extraction *)

Lemma substring_from_0 s : substring_from 0 s = s.
Proof.
  unfold substring_from. rewrite Nat.sub_0_r.
  induction s as [ | c s IH]; simpl; [ | rewrite IH ]; reflexivity.
Qed.

Lemma append_cons c p t : String c p ++ t = String c (p ++ t).
Proof. reflexivity. Qed.

Lemma substring_from_app p t : substring_from (String.length p) (p ++ t) = t.
Proof.
  induction p as [ | c p IH].
  - apply substring_from_0.
  - rewrite append_cons. exact IH.
Qed.

Lemma prefix_app p t : String.prefix p (p ++ t) = true.
Proof.
  induction p as [ | c p IH].
  - destruct t; reflexivity.
  - rewrite append_cons. simpl.
    destruct (ascii_dec c c); [exact IH | contradiction].
Qed.

Lemma prefix_true_app p : forall s, String.prefix p s = true -> exists t, s = p ++ t.
Proof.
  induction p as [ | c p IH]; intros s H.
  - exists s. reflexivity.
  - destruct s as [ | d s]; [discriminate | ]. simpl in H.
    destruct (ascii_dec c d) as [-> | ]; [ | discriminate].
    destruct (IH s H) as [t ->]. exists t. reflexivity.
Qed.

(** C8, as the code has it.  The middleware extracts a bearer token from
    the Authorization header exactly when the header value begins with the
    seven characters "Bearer " (capital B, lower-case rest, one space), and
    the token is what follows them; every other header value, and a missing
    header, yields no token.  The extraction is a total function: it never
    raises an error. *)
Theorem bearer_extraction_is_case_sensitive (authHeader : option string) (token : string) :
  extractBearerToken authHeader = Some token <-> authHeader = Some ("Bearer " ++ token).
Proof.
  split.
  - destruct authHeader as [h | ]; [ | discriminate].
    unfold extractBearerToken.
    destruct (truthy_str (Some h)); [ | discriminate]. simpl andb.
    destruct (String.prefix "Bearer " h) eqn:Hp; [ | discriminate].
    apply prefix_true_app in Hp. destruct Hp as [t ->].
    change 7%nat with (String.length "Bearer ").
    rewrite substring_from_app. congruence.
  - intros ->. unfold extractBearerToken.
    replace (truthy_str (Some ("Bearer " ++ token))) with true by reflexivity.
    rewrite prefix_app. simpl andb.
    change 7%nat with (String.length "Bearer ").
    rewrite substring_from_app. reflexivity.
Qed.

Lemma bearer_extraction_is_case_sensitive_witness :
  extractBearerToken (Some "Bearer abc.def.ghi") = Some "abc.def.ghi".
Proof.
  apply (bearer_extraction_is_case_sensitive (Some "Bearer abc.def.ghi") "abc.def.ghi").
  reflexivity.
Defined.

(** C8 as stated fails: a lower-case or upper-case scheme word yields no
    token, while the exact spelling does. *)
Lemma bearer_scheme_other_case_yields_no_token :
  extractBearerToken (Some "bearer abc") = None /\
  extractBearerToken (Some "BEARER abc") = None /\
  extractBearerToken (Some "Bearer abc") = Some "abc".
Proof. repeat split; reflexivity. Qed.

(** What the handlers see: the middleware writes a non-empty extracted
    token into [params._meta.bearerToken], and leaves the metadata's own
    value in place when nothing, or the empty string, was extracted. *)
Lemma injectAuthMiddleware_bearer req b :
  Mcp.body req = Some b ->
  exists m,
    Mcp.body (injectAuthMiddleware req) = Some (Mcp.mkBody (Some (Mcp.mkParams (Some m)))) /\
    Mcp.bearerToken m =
      if truthy_str (extractBearerToken (Mcp.authorization req))
      then extractBearerToken (Mcp.authorization req)
      else match Mcp.params b with
           | Some p => match Mcp._meta p with
                       | Some m0 => Mcp.bearerToken m0
                       | None => None
                       end
           | None => None
           end.
Proof.
  intros Hb. unfold injectAuthMiddleware. rewrite Hb.
  eexists. split; [reflexivity | ].
  destruct (truthy_str (extractBearerToken (Mcp.authorization req))); [reflexivity | ].
  destruct (truthy_str (Mcp.x_api_key req)); simpl;
    destruct (Mcp.params b) as [[[m0 | ]] | ]; reflexivity.
Qed.

(** End to end: a JSON-RPC request with the issued token in its
    Authorization header is authenticated as [oauth2]; the same request
    with a lower-case scheme word reaches the handlers without a bearer
    token and is told to authenticate. *)
Example request_with_bearer_header :
  let with_header h :=
    injectAuthMiddleware (Mcp.mkRequest None (Some h) (Some (Mcp.mkBody None))) in
  (exists msg, Mcp.body (with_header ("Bearer " ++ ref_token)) = Some msg /\
     authenticate_message RefJwt.lib {[ ref_token ]} 6000 msg = Ok oauth2) /\
  (exists msg, Mcp.body (with_header ("bearer " ++ ref_token)) = Some msg /\
     authenticate_message RefJwt.lib {[ ref_token ]} 6000 msg = Throw auth_required_error).
Proof.
  split; eexists; (split; [reflexivity | vm_compute; reflexivity]).
Qed.

(** ** Distinctness of issued tokens *)

Section Issuance.

Variable J : Jwt.JwtLib.

(** A run of issuance calls hands out one token per call and adds each of
    them to the store. *)
Lemma issue_all_spec clocks : forall validTokens,
  issue_all J validTokens clocks =
    (map (token_at J) clocks, list_to_set (map (token_at J) clocks) ∪ validTokens).
Proof.
  induction clocks as [ | now_ms rest IH]; intros validTokens; cbn [issue_all map].
  - f_equal. set_solver.
  - rewrite oauth_token_success by reflexivity.
    rewrite IH. cbn [issued_token json]. f_equal. set_solver.
Qed.

(** The token is a function of the clock's whole seconds: equal seconds
    give the same string, and the same string means equal seconds. *)
Lemma token_at_eq_iff a b :
  token_at J a = token_at J b <-> (a / 1000 = b / 1000)%Z.
Proof.
  unfold token_at. split.
  - intros H. apply sign_inj in H. exact H.
  - intros H. unfold token_payload. rewrite H. reflexivity.
Qed.

Lemma token_at_NoDup clocks :
  NoDup (map (fun n => n / 1000)%Z clocks) -> NoDup (map (token_at J) clocks).
Proof.
  induction clocks as [ | a rest IH]; simpl; intros Hnd.
  - constructor.
  - apply NoDup_cons in Hnd. destruct Hnd as [Hnotin Hnd].
    apply NoDup_cons. split; [ | apply IH; exact Hnd].
    intros Hin. apply Hnotin.
    apply list_elem_of_fmap in Hin. destruct Hin as (b & Heq & Hb).
    apply token_at_eq_iff in Heq. rewrite Heq.
    apply list_elem_of_fmap. exists b. split; [reflexivity | exact Hb].
Qed.

End Issuance.

(** C9, as the code has it.  The issued token is determined by the clock's
    whole seconds: two issuance calls with the configured credentials return
    the same string exactly when they fall in the same second.  So [N]
    calls in [N] pairwise different seconds, starting from an empty store,
    hand out [N] pairwise different tokens and leave a store of exactly [N]
    entries; and in any run every token handed out is in the final store
    and authenticates until its own expiry. *)
Theorem issuance_is_distinct_across_seconds (J : Jwt.JwtLib) (clocks : list Z) :
  (forall a b,
     fst (issue_all J ∅ [a]) = fst (issue_all J ∅ [b]) <-> (a / 1000 = b / 1000)%Z) /\
  length (fst (issue_all J ∅ clocks)) = length clocks /\
  (NoDup (map (fun n => n / 1000)%Z clocks) ->
     NoDup (fst (issue_all J ∅ clocks)) /\
     size (snd (issue_all J ∅ clocks)) = length clocks) /\
  (forall i issued_ms access_token,
     clocks !! i = Some issued_ms ->
     fst (issue_all J ∅ clocks) !! i = Some access_token ->
     access_token ∈ snd (issue_all J ∅ clocks) /\
     forall now_ms apiKey,
       apiKey <> Some VALID_API_KEY ->
       (now_ms / 1000 < issued_ms / 1000 + 3600)%Z ->
       validateAuth J (snd (issue_all J ∅ clocks)) now_ms apiKey (Some access_token)
         = Ok oauth2).
Proof.
  split; [ | split; [ | split]].
  - intros a b. rewrite !issue_all_spec. simpl. rewrite <- token_at_eq_iff.
    split; [intros [= H]; exact H | intros ->; reflexivity].
  - rewrite issue_all_spec. simpl. apply length_map.
  - intros Hnd. rewrite issue_all_spec. simpl.
    pose proof (token_at_NoDup J clocks Hnd) as Hnd'.
    split; [exact Hnd' | ].
    rewrite (right_id_L ∅ (∪)), size_list_to_set by exact Hnd'.
    apply length_map.
  - intros i issued_ms access_token Hi Htok.
    rewrite issue_all_spec in *. simpl in *.
    rewrite list_lookup_fmap, Hi in Htok. injection Htok as <-.
    assert (Hin : token_at J issued_ms ∈
                  (list_to_set (map (token_at J) clocks) ∪ ∅ : gset string)).
    { apply elem_of_union_l, elem_of_list_to_set, list_elem_of_fmap.
      exists issued_ms. split; [reflexivity | ].
      apply list_elem_of_lookup. exists i. exact Hi. }
    split; [exact Hin | ].
    intros now_ms apiKey Hk Hlt.
    rewrite issued_token_valid_iff by assumption.
    apply Z.ltb_lt in Hlt. rewrite Hlt. reflexivity.
Qed.

(** Three calls in three different seconds: three tokens, three entries,
    and the second token authenticates against the final store. *)
Lemma issuance_is_distinct_across_seconds_witness :
  NoDup (map (fun n => n / 1000)%Z [5000; 6000; 7999]%Z) /\
  NoDup (fst (issue_all RefJwt.lib ∅ [5000; 6000; 7999]%Z)) /\
  size (snd (issue_all RefJwt.lib ∅ [5000; 6000; 7999]%Z)) = 3%nat /\
  validateAuth RefJwt.lib (snd (issue_all RefJwt.lib ∅ [5000; 6000; 7999]%Z))
    9000 None (Some (token_at RefJwt.lib 6000)) = Ok oauth2.
Proof.
  assert (Hnd : NoDup (map (fun n => n / 1000)%Z [5000; 6000; 7999]%Z)).
  { vm_compute. repeat constructor; set_solver. }
  destruct (issuance_is_distinct_across_seconds RefJwt.lib [5000; 6000; 7999]%Z)
    as (_ & _ & Hdistinct & Hvalid).
  destruct (Hdistinct Hnd) as [Htoks Hsize].
  split; [exact Hnd | ]. split; [exact Htoks | ]. split; [exact Hsize | ].
  apply (Hvalid 1%nat 6000%Z (token_at RefJwt.lib 6000)); try reflexivity.
  discriminate.
Defined.

(** C9 as stated fails: two calls with the configured credentials within
    one second (5000 ms and 5999 ms) return the same token, and the store,
    empty before, holds one entry after both. *)
Lemma issuance_twice_in_one_second_repeats_token :
  fst (issue_all RefJwt.lib ∅ [5000; 5999]%Z) = [ref_token; ref_token] /\
  size (snd (issue_all RefJwt.lib ∅ [5000; 5999]%Z)) = 1%nat.
Proof. split; vm_compute; reflexivity. Qed.

(** * The rest of the server

    The tool handlers behind the authentication check (index.ts, lines
    98-250), and the earlier revision of the server that knows API keys
    only (index.ts, lines 455-673). *)

(** ** The API-key-only revision (index.ts, lines 460-479, 650-673) *)

Definition invalid_api_key_error : McpError :=
  mkMcpError InvalidRequest
    "Invalid or missing API key. Please provide a valid API key in the request metadata.".

(** [if (!apiKey || apiKey !== VALID_API_KEY) throw ...]. *)
Definition validateApiKey (apiKey : option string) : Result unit McpError :=
  if negb (truthy_str apiKey)
     || negb (match apiKey with Some k => (k =? VALID_API_KEY) | None => false end)
  then Throw invalid_api_key_error
  else Ok tt.

Definition getApiKeyFromMeta (meta : option Mcp.Meta) : option string :=
  match meta with
  | None => None
  | Some m => Mcp.apiKey m
  end.



(** ** The tools (index.ts, lines 98-250) *)

Module Tool.

(** One entry of [inputSchema.properties]. *)
Record Property : Type := mkProperty {
  prop_name : string;
  prop_type : string;
  prop_enum : option (list string);
  prop_description : string
}.

(** One entry of the [tools] array; [required] is absent for a tool
    without required arguments. *)
Record t : Type := mk {
  name : string;
  description : string;
  properties : list Property;
  required : option (list string)
}.

(** [request.params.arguments], with the types the handler casts to.  An
    absent field is [None]; a number is an IEEE 754 double. *)
Record Arguments : Type := mkArguments {
  timezone : option string;
  message : option string;
  operation : option string;
  a : option float;
  b : option float
}.

(** What a handler can throw: an [McpError], the [TypeError] of
    destructuring [undefined], or the [RangeError] of an unknown time
    zone. *)
Inductive Error : Type :=
  | McpThrown (e : McpError)
  | TypeError
  | RangeError.

(** The two library functions the handlers print with:
    [Number.prototype.toString], and [Date.prototype.toLocaleString] for
    the locale "en-US" in a given time zone, which throws a [RangeError]
    ([None]) for a zone it does not know. *)
Record Runtime : Type := mkRuntime {
  Number_toString : float -> string;
  toLocaleString : Z -> string -> option string
}.

End Tool.

(** The array returned by the tools/list handler. *)
Definition tools : list Tool.t :=
  [ Tool.mk "get_server_time" "Returns the current server time"
      [ Tool.mkProperty "timezone" "string" None
          "Timezone for the time (e.g., 'UTC', 'America/New_York')" ]
      None;
    Tool.mk "echo" "Echoes back the provided message"
      [ Tool.mkProperty "message" "string" None "The message to echo back" ]
      (Some ["message"]);
    Tool.mk "calculate" "Performs basic arithmetic operations"
      [ Tool.mkProperty "operation" "string"
          (Some ["add"; "subtract"; "multiply"; "divide"])
          "The arithmetic operation to perform";
        Tool.mkProperty "a" "number" None "First number";
        Tool.mkProperty "b" "number" None "Second number" ]
      (Some ["operation"; "a"; "b"]) ].


(** A number operand in arithmetic: [undefined] converts to NaN. *)
Definition to_number (x : option float) : float :=
  match x with
  | Some f => f
  | None => nan
  end.

(** [b === 0]. *)
Definition is_zero (x : option float) : bool :=
  match x with
  | Some f => PrimFloat.eqb f 0%float
  | None => false
  end.

(** A value inside a template literal. *)
Definition show_number (R : Tool.Runtime) (x : option float) : string :=
  match x with
  | Some f => Tool.Number_toString R f
  | None => "undefined"
  end.

Definition show_string (x : option string) : string :=
  match x with
  | Some s => s
  | None => "undefined"
  end.

Definition invalid_params (msg : string) : Tool.Error :=
  Tool.McpThrown (mkMcpError InvalidParams msg).

(** The inner [switch (operation)]: the result, or the error thrown. *)
Definition calculate_result (operation : option string) (a b : option float)
    : Result float Tool.Error :=
  match operation with
  | Some op =>
      if (op =? "add") then Ok (to_number a + to_number b)%float
      else if (op =? "subtract") then Ok (to_number a - to_number b)%float
      else if (op =? "multiply") then Ok (to_number a * to_number b)%float
      else if (op =? "divide") then
        if is_zero b then Throw (invalid_params "Cannot divide by zero")
        else Ok (to_number a / to_number b)%float
      else Throw (invalid_params ("Unknown operation: " ++ op))
  | None => Throw (invalid_params ("Unknown operation: " ++ show_string None))
  end.

(** The [switch (request.params.name)] of the tools/call handler; the
    result is the [text] of the single content item. *)
Definition dispatch_tool (R : Tool.Runtime) (now_ms : Z) (name : string)
    (arguments : option Tool.Arguments) : Result string Tool.Error :=
  if (name =? "get_server_time") then
    let requested := match arguments with
                     | Some args => Tool.timezone args
                     | None => None
                     end in
    let timezone := if truthy_str requested then show_string requested else "UTC" in
    match Tool.toLocaleString R now_ms timezone with
    | Some formatted =>
        Ok ("Current server time: " ++ formatted ++ " (" ++ timezone ++ ")")
    | None => Throw Tool.RangeError
    end
  else if (name =? "echo") then
    let message := match arguments with
                   | Some args => Tool.message args
                   | None => None
                   end in
    if negb (truthy_str message) then Throw (invalid_params "Message is required")
    else Ok ("Echo: " ++ show_string message)
  else if (name =? "calculate") then
    match arguments with
    | None => Throw Tool.TypeError
    | Some args =>
        match calculate_result (Tool.operation args) (Tool.a args) (Tool.b args) with
        | Throw e => Throw e
        | Ok result =>
            Ok ("Result: " ++ show_number R (Tool.a args) ++ " "
                ++ show_string (Tool.operation args) ++ " "
                ++ show_number R (Tool.b args) ++ " = "
                ++ Tool.Number_toString R result)
        end
    end
  else
    Throw (Tool.McpThrown (mkMcpError MethodNotFound ("Unknown tool: " ++ name))).

(** The tools/call handler: authenticate with [request.params._meta],
    then dispatch on the tool name. *)
Definition callTool (R : Tool.Runtime) (J : Jwt.JwtLib) (validTokens : gset string)
    (now_ms : Z) (meta : option Mcp.Meta) (name : string)
    (arguments : option Tool.Arguments) : Result string Tool.Error :=
  let '(apiKey, bearerToken) := getCredentialsFromMeta meta in
  match validateAuth J validTokens now_ms apiKey bearerToken with
  | Throw e => Throw (Tool.McpThrown e)
  | Ok _authType => dispatch_tool R now_ms name arguments
  end.

(** The tools/call handler of the API-key-only revision. *)
Definition callTool_v1 (R : Tool.Runtime) (now_ms : Z) (meta : option Mcp.Meta)
    (name : string) (arguments : option Tool.Arguments) : Result string Tool.Error :=
  match validateApiKey (getApiKeyFromMeta meta) with
  | Throw e => Throw (Tool.McpThrown e)
  | Ok _ => dispatch_tool R now_ms name arguments
  end.

(** ** Reference runtime

    Stand-ins for the two printing functions, used to evaluate the tool
    handlers on concrete calls: numbers that are integers below 10^21 are
    printed as JavaScript prints them, and the clock is printed in
    milliseconds for the zone "UTC", the only zone this runtime knows. *)

Definition ref_number_toString (f : float) : string :=
  match Prim2SF f with
  | S754_zero _ => "0"
  | S754_nan => "NaN"
  | S754_infinity s => if s then "-Infinity" else "Infinity"
  | S754_finite s m e =>
      let num := (if (0 <=? e)%Z then Z.pos m * 2 ^ e else Z.pos m / 2 ^ (- e))%Z in
      let exact := (if (0 <=? e)%Z then true else (Z.pos m mod 2 ^ (- e) =? 0)%Z) in
      if exact && (num <? 10 ^ 21)%Z
      then (if s then "-" else "") ++ pretty num
      else "?"
  end.

Definition ref_toLocaleString (now_ms : Z) (timeZone : string) : option string :=
  if (timeZone =? "UTC") then Some (pretty now_ms ++ " ms") else None.

Definition ref_runtime : Tool.Runtime :=
  Tool.mkRuntime ref_number_toString ref_toLocaleString.

(** ** Credentials: edge cases and the two revisions *)

Lemma not_accepted apiKey : apiKey <> Some VALID_API_KEY -> api_key_accepted apiKey = false.
Proof.
  intros Hk. destruct (api_key_accepted apiKey) eqn:E; [ | reflexivity].
  apply api_key_accepted_iff in E. contradiction.
Qed.

(** X1. An empty string is no credential: [validateAuth] treats an empty
    API key and an empty bearer token exactly as absent ones, and so does
    [validateApiKey]. *)
Theorem empty_credentials_count_as_absent
    (J : Jwt.JwtLib) (validTokens : gset string) (now_ms : Z)
    (apiKey bearerToken : option string) :
  validateAuth J validTokens now_ms (Some "") bearerToken =
    validateAuth J validTokens now_ms None bearerToken /\
  validateAuth J validTokens now_ms apiKey (Some "") =
    validateAuth J validTokens now_ms apiKey None /\
  validateAuth J validTokens now_ms (Some "") (Some "") = Throw auth_required_error /\
  validateApiKey (Some "") = validateApiKey None.
Proof.
  repeat split; rewrite ?validateAuth_cases; reflexivity.
Qed.

(** X2. An issued token that is still in the store authenticates exactly
    while the clock, in whole seconds, is before [iat + 3600]: it is
    already rejected at [iat + 3600] sharp, and it is accepted at any
    earlier reading, also one before its issuance. *)
Theorem issued_token_valid_exactly_until_expiry
    (J : Jwt.JwtLib) (validTokens : gset string) (issued_ms now_ms : Z)
    (apiKey : option string) :
  apiKey <> Some VALID_API_KEY ->
  token_at J issued_ms ∈ validTokens ->
  (validateAuth J validTokens now_ms apiKey (Some (token_at J issued_ms)) = Ok oauth2
     <-> (now_ms / 1000 < issued_ms / 1000 + 3600)%Z) /\
  (validateAuth J validTokens now_ms apiKey (Some (token_at J issued_ms))
     = Throw invalid_token_error
     <-> (issued_ms / 1000 + 3600 <= now_ms / 1000)%Z).
Proof.
  intros Hk Hin. rewrite issued_token_valid_iff by assumption.
  destruct (Z.ltb_spec (now_ms / 1000) (issued_ms / 1000 + 3600)).
  - split; split; try reflexivity; try discriminate; lia.
  - split; split; try reflexivity; try discriminate; lia.
Qed.

Lemma issued_token_valid_exactly_until_expiry_witness :
  validateAuth RefJwt.lib {[ ref_token ]} 3604999 None (Some ref_token) = Ok oauth2 /\
  validateAuth RefJwt.lib {[ ref_token ]} 3605000 None (Some ref_token)
    = Throw invalid_token_error /\
  validateAuth RefJwt.lib {[ ref_token ]} 0 None (Some ref_token) = Ok oauth2.
Proof.
  assert (Hk : (None : option string) <> Some VALID_API_KEY) by discriminate.
  assert (Hin : token_at RefJwt.lib 5000 ∈ ({[ ref_token ]} : gset string))
    by (apply elem_of_singleton; reflexivity).
  pose proof (issued_token_valid_exactly_until_expiry RefJwt.lib {[ ref_token ]} 5000)
    as Hx.
  split; [ | split].
  - apply (Hx 3604999%Z None Hk Hin). reflexivity.
  - apply (Hx 3605000%Z None Hk Hin). discriminate.
  - apply (Hx 0%Z None Hk Hin). reflexivity.
Defined.

Lemma revisions_accept_the_same_keys_helper apiKey :
  (validateApiKey apiKey = Ok tt <-> apiKey = Some VALID_API_KEY) /\
  (validateApiKey apiKey <> Ok tt -> validateApiKey apiKey = Throw invalid_api_key_error).
Proof.
  assert (Hv : validateApiKey apiKey =
               if api_key_accepted apiKey then Ok tt else Throw invalid_api_key_error).
  { unfold validateApiKey, api_key_accepted.
    destruct (truthy_str apiKey); simpl; [ | reflexivity].
    destruct apiKey as [k | ]; [ | reflexivity].
    destruct (k =? VALID_API_KEY); reflexivity. }
  rewrite Hv. destruct (api_key_accepted apiKey) eqn:E.
  - apply api_key_accepted_iff in E. split; [tauto | intros H; contradiction].
  - split; [ | reflexivity]. split; [discriminate | ].
    intros Hk. apply api_key_accepted_iff in Hk. congruence.
Qed.

(** X3. The two revisions accept the same API keys: [validateApiKey]
    returns exactly for the configured key, which is exactly when
    [validateAuth] without a bearer token answers [apikey].  They differ in
    the error: the earlier revision reports an invalid or missing key, the
    later one only asks for authentication. *)
Theorem revisions_accept_the_same_keys
    (J : Jwt.JwtLib) (validTokens : gset string) (now_ms : Z) (apiKey : option string) :
  (validateApiKey apiKey = Ok tt <-> apiKey = Some VALID_API_KEY) /\
  (validateApiKey apiKey = Ok tt <->
   validateAuth J validTokens now_ms apiKey None = Ok apikey) /\
  (validateApiKey apiKey <> Ok tt ->
   validateApiKey apiKey = Throw invalid_api_key_error /\
   validateAuth J validTokens now_ms apiKey None = Throw auth_required_error).
Proof.
  assert (Hv : validateApiKey apiKey =
               if api_key_accepted apiKey then Ok tt else Throw invalid_api_key_error).
  { unfold validateApiKey, api_key_accepted.
    destruct (truthy_str apiKey); simpl; [ | reflexivity].
    destruct apiKey as [k | ]; [ | reflexivity].
    destruct (k =? VALID_API_KEY); reflexivity. }
  rewrite Hv, validateAuth_cases. simpl.
  destruct (api_key_accepted apiKey) eqn:E.
  - apply api_key_accepted_iff in E.
    split; [tauto | ]. split; [tauto | ]. intros H. contradiction.
  - assert (apiKey <> Some VALID_API_KEY).
    { intros Hk. apply api_key_accepted_iff in Hk. congruence. }
    split; [split; [discriminate | contradiction] | ].
    split; [split; discriminate | ]. intros _. split; reflexivity.
Qed.

Lemma revisions_accept_the_same_keys_witness :
  validateApiKey (Some "wrong-key") = Throw invalid_api_key_error /\
  validateAuth RefJwt.lib ∅ 0 (Some "wrong-key") None = Throw auth_required_error.
Proof.
  apply (revisions_accept_the_same_keys RefJwt.lib ∅ 0 (Some "wrong-key")).
  discriminate.
Defined.

(** ** The token store over runs of the endpoints *)

Definition is_issue (op : Op) : bool :=
  match op with
  | Issue _ _ => true
  | Revoke _ => false
  end.

Section Store.

Variable J : Jwt.JwtLib.

Lemma step_member validTokens op t :
  t ∈ snd (step J validTokens op) -> t ∈ validTokens \/ hands_out J op t.
Proof.
  destruct op as [now_ms body | token]; simpl.
  - destruct (oauth_token_cases J validTokens now_ms body) as [[Hi ->] | [_ ->]];
      [ | tauto].
    intros Hin. apply elem_of_union in Hin. destruct Hin as [Hin | Hin]; [ | tauto].
    apply elem_of_singleton in Hin. subst t.
    right. exists validTokens. exact Hi.
  - intros Hin. left.
    pose proof (oauth_revoke_store validTokens token) as [Hsub _]. apply Hsub, Hin.
Qed.

Lemma run_member ops : forall validTokens t,
  t ∈ run J validTokens ops ->
  t ∈ validTokens \/ exists op, In op ops /\ hands_out J op t.
Proof.
  unfold run. induction ops as [ | op ops IH]; intros validTokens t Hin; simpl in *.
  - left. exact Hin.
  - destruct (IH _ _ Hin) as [Hstep | (op' & Hop' & Hout)].
    + destruct (step_member _ _ _ Hstep) as [Hold | Hout]; [left; exact Hold | ].
      right. exists op. split; [left; reflexivity | exact Hout].
    + right. exists op'. split; [right; exact Hop' | exact Hout].
Qed.

Lemma step_size validTokens op :
  size (snd (step J validTokens op)) <= size validTokens + (if is_issue op then 1 else 0).
Proof.
  destruct op as [now_ms body | token]; simpl.
  - destruct (oauth_token_cases J validTokens now_ms body) as [[_ ->] | [_ ->]]; [ | lia].
    rewrite size_union_alt, size_singleton.
    assert (size (validTokens ∖ {[token_at J now_ms]}) <= size validTokens)
      by (apply subseteq_size; set_solver).
    lia.
  - pose proof (oauth_revoke_store validTokens token) as [Hsub _].
    apply subseteq_size in Hsub. lia.
Qed.

Lemma run_size ops : forall validTokens,
  size (run J validTokens ops) <= size validTokens + length (List.filter is_issue ops).
Proof.
  unfold run. induction ops as [ | op ops IH]; intros validTokens; simpl.
  - lia.
  - specialize (IH (snd (step J validTokens op))).
    pose proof (step_size validTokens op) as Hstep.
    destruct (is_issue op); simpl; lia.
Qed.

End Store.

(** X4. Whatever calls the two endpoints have served since start-up, every
    string in the token store is a token this server handed out in one of
    those calls: it was issued by a call of the run at some clock reading,
    carries the configured client, the scope "mcp:tools" and
    [exp = iat + 3600], and its signature verifies under [JWT_SECRET]. *)
Theorem store_holds_only_issued_tokens (J : Jwt.JwtLib) (ops : list Op) (t : string) :
  t ∈ run J ∅ ops ->
  exists now_ms body,
    In (Issue now_ms body) ops /\
    hands_out J (Issue now_ms body) t /\
    t = token_at J now_ms /\
    Jwt.jws_decode J t =
      Some (Jwt.mkClaims OAUTH_CLIENT_ID "mcp:tools" (now_ms / 1000)
              (Some (now_ms / 1000 + 3600)%Z)) /\
    Jwt.jws_signature_ok J t JWT_SECRET = true.
Proof.
  intros Hin. apply run_member in Hin.
  destruct Hin as [Hin | (op & Hop & Hout)]; [set_solver | ].
  destruct op as [now_ms body | token]; [ | destruct (hands_out_revoke J _ _ Hout)].
  exists now_ms, body. split; [exact Hop | ]. split; [exact Hout | ].
  apply hands_out_issue in Hout. subst t.
  split; [reflexivity | ]. split.
  - unfold token_at. rewrite decode_sign. reflexivity.
  - unfold token_at, Jwt.jwt_sign. apply Jwt.signature_encode.
Qed.

Lemma store_holds_only_issued_tokens_witness :
  ref_token ∈ run RefJwt.lib ∅
    [Issue 5000 valid_token_request; Revoke (JStr "x"); Issue 9000 valid_token_request] /\
  Jwt.jws_signature_ok RefJwt.lib ref_token JWT_SECRET = true.
Proof.
  assert (Hin : ref_token ∈ run RefJwt.lib ∅
            [Issue 5000 valid_token_request; Revoke (JStr "x");
             Issue 9000 valid_token_request]).
  { apply (bool_decide_eq_true_1 (ref_token ∈ run RefJwt.lib ∅
            [Issue 5000 valid_token_request; Revoke (JStr "x");
             Issue 9000 valid_token_request])).
    vm_compute. reflexivity. }
  destruct (store_holds_only_issued_tokens RefJwt.lib _ _ Hin)
    as (now_ms & body & _ & _ & _ & _ & Hsig).
  split; [exact Hin | exact Hsig].
Defined.

(** X5. The token store never holds more entries than issuance calls
    were served: revocations and refused requests add nothing, and an
    issuance adds at most one. *)
Theorem store_size_bounded_by_issuances (J : Jwt.JwtLib) (ops : list Op) :
  size (run J ∅ ops) <= length (List.filter is_issue ops).
Proof.
  pose proof (run_size J ops ∅) as H. rewrite size_empty in H. exact H.
Qed.

(** X6. Issuing a token and then revoking it leaves the store as it was,
    apart from that token: if the string was not in the store before, the
    store is restored exactly; if it was (an issuance in the same second),
    it is gone. *)
Theorem issue_then_revoke_restores_store
    (J : Jwt.JwtLib) (validTokens : gset string) (now_ms : Z)
    (body : TokenRequest.t) (access_token : string) :
  issued_token (fst (oauth_token J validTokens now_ms body)) = Some access_token ->
  oauth_revoke (snd (oauth_token J validTokens now_ms body)) (JStr access_token) =
    (mkResponse 200 (RevokeResponse true), validTokens ∖ {[ access_token ]}) /\
  (access_token ∉ validTokens ->
   snd (oauth_revoke (snd (oauth_token J validTokens now_ms body)) (JStr access_token))
     = validTokens).
Proof.
  intros Hissued.
  destruct (oauth_token_cases J validTokens now_ms body) as [[Hi Hs] | [Hi _]];
    [ | congruence].
  rewrite Hs. assert (access_token = token_at J now_ms) by congruence. subst access_token.
  assert (Hne : token_at J now_ms <> "") by apply sign_nonempty.
  assert (Hrev : oauth_revoke ({[token_at J now_ms]} ∪ validTokens) (JStr (token_at J now_ms))
                 = (mkResponse 200 (RevokeResponse true),
                    validTokens ∖ {[token_at J now_ms]})).
  { unfold oauth_revoke. simpl. apply String.eqb_neq in Hne. rewrite Hne. simpl.
    f_equal. set_solver. }
  rewrite Hrev. split; [reflexivity | ]. intros Hout. simpl. set_solver.
Qed.

Lemma issue_then_revoke_restores_store_witness :
  snd (oauth_revoke
         (snd (oauth_token RefJwt.lib {[ forged_token ]} 5000 valid_token_request))
         (JStr ref_token))
    = {[ forged_token ]}.
Proof.
  assert (Hissued : issued_token
            (fst (oauth_token RefJwt.lib {[ forged_token ]} 5000 valid_token_request))
            = Some ref_token) by (vm_compute; reflexivity).
  destruct (issue_then_revoke_restores_store RefJwt.lib {[ forged_token ]} 5000
              valid_token_request ref_token Hissued) as [_ Hrestore].
  apply Hrestore. apply not_elem_of_singleton. vm_compute. discriminate.
Defined.

(** X7. Issuance never takes a token out of the store and never changes
    the standing of a token other than the one it returns: every other
    string is a member afterwards exactly when it was before, and
    [validateAuth] answers for it as before. *)
Theorem issuance_frames_other_tokens
    (J : Jwt.JwtLib) (validTokens : gset string) (now_ms : Z) (body : TokenRequest.t)
    (t' : string) (later_ms : Z) (apiKey : option string) :
  validTokens ⊆ snd (oauth_token J validTokens now_ms body) /\
  (issued_token (fst (oauth_token J validTokens now_ms body)) <> Some t' ->
   (t' ∈ snd (oauth_token J validTokens now_ms body) <-> t' ∈ validTokens) /\
   validateAuth J (snd (oauth_token J validTokens now_ms body)) later_ms apiKey (Some t') =
   validateAuth J validTokens later_ms apiKey (Some t')).
Proof.
  destruct (oauth_token_cases J validTokens now_ms body) as [[Hi ->] | [Hi ->]].
  - split; [set_solver | ]. rewrite Hi. intros Hne.
    assert (t' <> token_at J now_ms) by congruence.
    assert (Hiff : t' ∈ {[token_at J now_ms]} ∪ validTokens <-> t' ∈ validTokens)
      by set_solver.
    split; [exact Hiff | ].
    rewrite !validateAuth_cases. rewrite (bool_decide_ext _ _ Hiff). reflexivity.
  - split; [reflexivity | ]. intros _. split; reflexivity.
Qed.

Lemma issuance_frames_other_tokens_witness :
  (forged_token ∈ snd (oauth_token RefJwt.lib {[ ref_token ]} 9000 valid_token_request)
     <-> forged_token ∈ ({[ ref_token ]} : gset string)) /\
  validateAuth RefJwt.lib
    (snd (oauth_token RefJwt.lib {[ ref_token ]} 9000 valid_token_request))
    9500 None (Some ref_token) = Ok oauth2.
Proof.
  pose proof (issuance_frames_other_tokens RefJwt.lib {[ ref_token ]} 9000
                valid_token_request) as Hx.
  split.
  - apply (Hx forged_token 0%Z None). vm_compute. discriminate.
  - destruct (Hx ref_token 9500%Z None) as [_ Hsame].
    rewrite (proj2 (Hsame ltac:(vm_compute; discriminate))).
    vm_compute. reflexivity.
Defined.

(** X8. A revocation request whose [token] is truthy but not a string (a
    non-zero number, [true], an object) is answered 200
    [{revoked: true}] although nothing is revoked: the store is
    unchanged. *)
Theorem revoke_non_string_changes_nothing (validTokens : gset string) (token : JsValue) :
  truthy token = true ->
  (forall s, token <> JStr s) ->
  oauth_revoke validTokens token = (mkResponse 200 (RevokeResponse true), validTokens).
Proof.
  intros Ht Hns. unfold oauth_revoke. rewrite Ht. simpl.
  destruct token; try reflexivity. destruct (Hns s). reflexivity.
Qed.

Lemma revoke_non_string_changes_nothing_witness :
  oauth_revoke {[ ref_token ]} (JNum 7) =
    (mkResponse 200 (RevokeResponse true), {[ ref_token ]}).
Proof.
  apply revoke_non_string_changes_nothing; [reflexivity | discriminate].
Defined.

(** ** From the HTTP headers to the credential check *)















(** ** The tool handlers *)

(** The names the tools/list handler announces. *)
Definition tool_names : list string := map Tool.name tools.

(** The [enum] a tool's schema declares for one of its properties. *)
Definition schema_enum (tool property : string) : list string :=
  match List.find (fun t => (Tool.name t =? tool)) tools with
  | Some t =>
      match List.find (fun p => (Tool.prop_name p =? property)) (Tool.properties t) with
      | Some p => match Tool.prop_enum p with Some l => l | None => [] end
      | None => []
      end
  | None => []
  end.

(** Arithmetic on doubles: NaN is absorbing, and only the two zeros are
    equal to zero. *)
Lemma float_eqb_zero f :
  PrimFloat.eqb f 0%float = true <-> f = 0%float \/ f = (-0)%float.
Proof.
  rewrite FloatAxioms.eqb_spec. split.
  - intros H. destruct (Prim2SF f) as [s | s | | s m e] eqn:E;
      try discriminate; try (destruct s; discriminate).
    destruct s; [right | left]; apply Prim2SF_inj; rewrite E; reflexivity.
  - intros [-> | ->]; reflexivity.
Qed.

Lemma nan_absorbs x :
  (nan + x = nan /\ x + nan = nan /\ nan - x = nan /\ x - nan = nan /\
   nan * x = nan /\ x * nan = nan /\ nan / x = nan /\ x / nan = nan)%float.
Proof.
  repeat split.
  - rewrite <- (SF2Prim_Prim2SF (nan + x)), add_spec. reflexivity.
  - rewrite <- (SF2Prim_Prim2SF (x + nan)), add_spec.
    change (Prim2SF nan) with S754_nan. destruct (Prim2SF x); reflexivity.
  - rewrite <- (SF2Prim_Prim2SF (nan - x)), sub_spec. reflexivity.
  - rewrite <- (SF2Prim_Prim2SF (x - nan)), sub_spec.
    change (Prim2SF nan) with S754_nan. destruct (Prim2SF x); reflexivity.
  - rewrite <- (SF2Prim_Prim2SF (nan * x)), mul_spec. reflexivity.
  - rewrite <- (SF2Prim_Prim2SF (x * nan)), mul_spec.
    change (Prim2SF nan) with S754_nan. destruct (Prim2SF x); reflexivity.
  - rewrite <- (SF2Prim_Prim2SF (nan / x)), div_spec. reflexivity.
  - rewrite <- (SF2Prim_Prim2SF (x / nan)), div_spec.
    change (Prim2SF nan) with S754_nan. destruct (Prim2SF x); reflexivity.
Qed.

Lemma is_zero_iff b : is_zero b = true <-> b = Some 0%float \/ b = Some (-0)%float.
Proof.
  destruct b as [f | ]; simpl.
  - rewrite float_eqb_zero. split.
    + intros [-> | ->]; auto.
    + intros [[= ->] | [= ->]]; auto.
  - split; [discriminate | intros [H | H]; discriminate].
Qed.

Section Dispatch.

Variable R : Tool.Runtime.
Variable now_ms : Z.

Lemma dispatch_get_server_time arguments :
  dispatch_tool R now_ms "get_server_time" arguments =
    let requested := match arguments with
                     | Some args => Tool.timezone args
                     | None => None
                     end in
    let timezone := if truthy_str requested then show_string requested else "UTC" in
    match Tool.toLocaleString R now_ms timezone with
    | Some formatted =>
        Ok ("Current server time: " ++ formatted ++ " (" ++ timezone ++ ")")
    | None => Throw Tool.RangeError
    end.
Proof. reflexivity. Qed.

Lemma dispatch_echo arguments :
  dispatch_tool R now_ms "echo" arguments =
    let message := match arguments with
                   | Some args => Tool.message args
                   | None => None
                   end in
    if negb (truthy_str message) then Throw (invalid_params "Message is required")
    else Ok ("Echo: " ++ show_string message).
Proof. reflexivity. Qed.

Lemma dispatch_calculate arguments :
  dispatch_tool R now_ms "calculate" arguments =
    match arguments with
    | None => Throw Tool.TypeError
    | Some args =>
        match calculate_result (Tool.operation args) (Tool.a args) (Tool.b args) with
        | Throw e => Throw e
        | Ok result =>
            Ok ("Result: " ++ show_number R (Tool.a args) ++ " "
                ++ show_string (Tool.operation args) ++ " "
                ++ show_number R (Tool.b args) ++ " = "
                ++ Tool.Number_toString R result)
        end
    end.
Proof. reflexivity. Qed.

Lemma dispatch_unlisted name arguments :
  ~ In name tool_names ->
  dispatch_tool R now_ms name arguments =
    Throw (Tool.McpThrown (mkMcpError MethodNotFound ("Unknown tool: " ++ name))).
Proof.
  intros Hnot. unfold dispatch_tool.
  destruct (String.eqb_spec name "get_server_time") as [-> | _].
  { destruct Hnot. simpl. auto. }
  destruct (String.eqb_spec name "echo") as [-> | _].
  { destruct Hnot. simpl. auto. }
  destruct (String.eqb_spec name "calculate") as [-> | _].
  { destruct Hnot. simpl. auto. }
  reflexivity.
Qed.

Lemma calculate_result_error operation a b e :
  calculate_result operation a b = Throw e ->
  exists msg, e = invalid_params msg.
Proof.
  unfold calculate_result. destruct operation as [op | ]; [ | intros [= <-]; eauto].
  destruct (op =? "add"); [discriminate | ].
  destruct (op =? "subtract"); [discriminate | ].
  destruct (op =? "multiply"); [discriminate | ].
  destruct (op =? "divide").
  - destruct (is_zero b); [intros [= <-]; eauto | discriminate].
  - intros [= <-]. eauto.
Qed.

(** A listed tool fails, if it fails, with [InvalidParams], a [TypeError]
    or a [RangeError]. *)
Lemma dispatch_listed name arguments e :
  In name tool_names ->
  dispatch_tool R now_ms name arguments = Throw (Tool.McpThrown e) ->
  code e = InvalidParams.
Proof.
  intros Hin H. simpl in Hin.
  destruct Hin as [<- | [<- | [<- | []]]].
  - rewrite dispatch_get_server_time in H. cbv zeta in H.
    destruct (Tool.toLocaleString R now_ms _); discriminate.
  - rewrite dispatch_echo in H. cbv zeta in H.
    destruct (negb _); [ | discriminate]. injection H as <-. reflexivity.
  - rewrite dispatch_calculate in H.
    destruct arguments as [args | ]; [ | discriminate].
    destruct (calculate_result _ _ _) as [r | e'] eqn:Hc; [discriminate | ].
    apply calculate_result_error in Hc. destruct Hc as [msg ->].
    injection H as <-. reflexivity.
Qed.

End Dispatch.

(** X13. A tools/call request is answered by a tool only after
    [validateAuth] accepted its credentials.  When the credentials are
    refused the call fails with that authentication error, of code
    [InvalidRequest], whatever tool and arguments it names; when they are
    accepted the answer is the tool's alone, and an [McpError] a tool
    raises never has the code [InvalidRequest], so the two kinds of failure
    cannot be confused. *)
Theorem tool_calls_are_gated_by_authentication
    (R : Tool.Runtime) (J : Jwt.JwtLib) (validTokens : gset string) (now_ms : Z)
    (meta : option Mcp.Meta) (name : string) (arguments : option Tool.Arguments) :
  let apiKey := fst (getCredentialsFromMeta meta) in
  let bearerToken := snd (getCredentialsFromMeta meta) in
  (forall e, validateAuth J validTokens now_ms apiKey bearerToken = Throw e ->
     callTool R J validTokens now_ms meta name arguments = Throw (Tool.McpThrown e) /\
     code e = InvalidRequest) /\
  (forall authType, validateAuth J validTokens now_ms apiKey bearerToken = Ok authType ->
     callTool R J validTokens now_ms meta name arguments
       = dispatch_tool R now_ms name arguments /\
     forall e, dispatch_tool R now_ms name arguments = Throw (Tool.McpThrown e) ->
               code e <> InvalidRequest).
Proof.
  intros apiKey bearerToken. unfold callTool.
  destruct (getCredentialsFromMeta meta) as [k t] eqn:Hc. subst apiKey bearerToken.
  cbn [fst snd]. split.
  - intros e He. rewrite He. split; [reflexivity | ].
    rewrite validateAuth_cases in He.
    destruct (api_key_accepted k); [discriminate | ].
    destruct (truthy_str t); [ | injection He as <-; reflexivity].
    destruct t as [token | ]; [ | injection He as <-; reflexivity].
    destruct (Jwt.jwt_verify J token JWT_SECRET now_ms);
      [ | injection He as <-; reflexivity].
    destruct (bool_decide (token ∈ validTokens));
      [discriminate | injection He as <-; reflexivity].
  - intros authType Ha. rewrite Ha. split; [reflexivity | ].
    intros e He. destruct (in_dec string_dec name tool_names) as [Hin | Hout].
    + rewrite (dispatch_listed R now_ms name arguments e Hin He). discriminate.
    + rewrite (dispatch_unlisted R now_ms name arguments Hout) in He.
      injection He as <-. discriminate.
Qed.

(** Without credentials not even the name of an unknown tool is looked
    at; with the API key the unknown name is reported. *)
Lemma tool_calls_are_gated_by_authentication_witness :
  callTool ref_runtime RefJwt.lib ∅ 0 None "no-such-tool" None
    = Throw (Tool.McpThrown auth_required_error) /\
  callTool ref_runtime RefJwt.lib ∅ 0 (Some (Mcp.mkMeta (Some VALID_API_KEY) None))
    "no-such-tool" None
    = Throw (Tool.McpThrown (mkMcpError MethodNotFound "Unknown tool: no-such-tool")).
Proof.
  split.
  - apply (tool_calls_are_gated_by_authentication ref_runtime RefJwt.lib ∅ 0 None
             "no-such-tool" None).
    reflexivity.
  - destruct (tool_calls_are_gated_by_authentication ref_runtime RefJwt.lib ∅ 0
                (Some (Mcp.mkMeta (Some VALID_API_KEY) None)) "no-such-tool" None)
      as [_ Hok].
    destruct (Hok apikey eq_refl) as [-> _]. reflexivity.
Defined.



(** X15. The tools/call handler knows exactly the tools that tools/list
    announces: a call fails with [MethodNotFound] "Unknown tool: <name>"
    exactly when the name is none of the three listed ones, and a listed
    tool never fails that way. *)
Theorem listed_tools_are_the_dispatched_ones
    (R : Tool.Runtime) (now_ms : Z) (name : string) (arguments : option Tool.Arguments) :
  tool_names = ["get_server_time"; "echo"; "calculate"] /\
  (dispatch_tool R now_ms name arguments
     = Throw (Tool.McpThrown (mkMcpError MethodNotFound ("Unknown tool: " ++ name)))
   <-> ~ In name tool_names) /\
  (In name tool_names ->
   forall e, dispatch_tool R now_ms name arguments = Throw (Tool.McpThrown e) ->
             code e = InvalidParams).
Proof.
  split; [reflexivity | ]. split.
  - split.
    + intros H Hin. apply (dispatch_listed R now_ms name arguments _ Hin) in H.
      discriminate.
    + apply dispatch_unlisted.
  - intros Hin e. apply dispatch_listed. exact Hin.
Qed.

Lemma listed_tools_are_the_dispatched_ones_witness :
  ~ In "Echo" tool_names /\
  dispatch_tool ref_runtime 0 "Echo" None
    = Throw (Tool.McpThrown (mkMcpError MethodNotFound "Unknown tool: Echo")).
Proof.
  assert (Hnot : ~ In "Echo" tool_names).
  { simpl. intros [H | [H | [H | []]]]; discriminate. }
  split; [exact Hnot | ].
  apply (listed_tools_are_the_dispatched_ones ref_runtime 0 "Echo" None). exact Hnot.
Defined.

(** X16. The calculate tool accepts exactly the operations its schema
    declares: a call fails with "Unknown operation: <operation>" exactly
    when its [operation] is missing or is none of the four strings of the
    schema's [enum] ("add", "subtract", "multiply", "divide"), compared
    case-sensitively. *)
Theorem calculate_accepts_exactly_the_schema_enum
    (R : Tool.Runtime) (now_ms : Z) (args : Tool.Arguments) :
  schema_enum "calculate" "operation" = ["add"; "subtract"; "multiply"; "divide"] /\
  (dispatch_tool R now_ms "calculate" (Some args)
     = Throw (invalid_params ("Unknown operation: " ++ show_string (Tool.operation args)))
   <-> ~ exists op, Tool.operation args = Some op /\
                    In op (schema_enum "calculate" "operation")).
Proof.
  split; [reflexivity | ].
  rewrite dispatch_calculate. unfold calculate_result.
  destruct (Tool.operation args) as [op | ].
  2: { split; [intros _ (op & [=] & _) | reflexivity]. }
  destruct (String.eqb_spec op "add") as [-> | Hadd].
  { split; [discriminate | intros H; destruct H; exists "add"; simpl; auto]. }
  destruct (String.eqb_spec op "subtract") as [-> | Hsub].
  { split; [discriminate | intros H; destruct H; exists "subtract"; simpl; auto]. }
  destruct (String.eqb_spec op "multiply") as [-> | Hmul].
  { split; [discriminate | intros H; destruct H; exists "multiply"; simpl; auto]. }
  destruct (String.eqb_spec op "divide") as [-> | Hdiv].
  { split; [ | intros H; destruct H; exists "divide"; simpl; auto 6].
    destruct (is_zero (Tool.b args)); [ | discriminate].
    intros H. vm_compute in H. discriminate. }
  split; [ | reflexivity].
  intros _ (op' & [= <-] & Hin). simpl in Hin.
  destruct Hin as [H | [H | [H | [H | []]]]]; congruence.
Qed.

Lemma calculate_accepts_exactly_the_schema_enum_witness :
  dispatch_tool ref_runtime 0 "calculate"
    (Some (Tool.mkArguments None None (Some "Add") (Some 1%float) (Some 2%float)))
    = Throw (invalid_params "Unknown operation: Add") /\
  dispatch_tool ref_runtime 0 "calculate"
    (Some (Tool.mkArguments None None (Some "add") (Some 1%float) (Some 2%float)))
    = Ok "Result: 1 add 2 = 3".
Proof.
  split; [ | vm_compute; reflexivity].
  apply (calculate_accepts_exactly_the_schema_enum ref_runtime 0
           (Tool.mkArguments None None (Some "Add") (Some 1%float) (Some 2%float))).
  intros (op & [= <-] & Hin). simpl in Hin.
  destruct Hin as [H | [H | [H | [H | []]]]]; discriminate.
Defined.

(** X17. Division is refused exactly for a zero divisor: "divide" fails
    with "Cannot divide by zero" exactly when [b] is [0] or [-0]; for every
    other [b], including NaN, the infinities and a missing [b], the call
    returns the text with the quotient [a / b]. *)
Theorem divide_refuses_exactly_zero_divisors
    (R : Tool.Runtime) (now_ms : Z) (tz msg : option string) (a b : option float) :
  let args := Tool.mkArguments tz msg (Some "divide") a b in
  (b = Some 0%float \/ b = Some (-0)%float ->
   dispatch_tool R now_ms "calculate" (Some args)
     = Throw (invalid_params "Cannot divide by zero")) /\
  (b <> Some 0%float -> b <> Some (-0)%float ->
   dispatch_tool R now_ms "calculate" (Some args)
     = Ok ("Result: " ++ show_number R a ++ " divide " ++ show_number R b ++ " = "
           ++ Tool.Number_toString R (to_number a / to_number b)%float)).
Proof.
  intros args. rewrite dispatch_calculate. unfold args, calculate_result.
  cbn [Tool.operation Tool.a Tool.b]. split.
  - intros Hz. apply is_zero_iff in Hz. simpl. rewrite Hz. reflexivity.
  - intros H0 Hm0. simpl.
    destruct (is_zero b) eqn:Hz; [ | reflexivity].
    apply is_zero_iff in Hz. destruct Hz; contradiction.
Qed.

Lemma divide_refuses_exactly_zero_divisors_witness :
  dispatch_tool ref_runtime 0 "calculate"
    (Some (Tool.mkArguments None None (Some "divide") (Some 1%float) (Some (-0)%float)))
    = Throw (invalid_params "Cannot divide by zero") /\
  dispatch_tool ref_runtime 0 "calculate"
    (Some (Tool.mkArguments None None (Some "divide") (Some 6%float) (Some 3%float)))
    = Ok "Result: 6 divide 3 = 2" /\
  dispatch_tool ref_runtime 0 "calculate"
    (Some (Tool.mkArguments None None (Some "divide") (Some 1%float) (Some infinity)))
    = Ok "Result: 1 divide Infinity = 0".
Proof.
  split; [ | split].
  - apply (divide_refuses_exactly_zero_divisors ref_runtime 0 None None
             (Some 1%float) (Some (-0)%float)).
    right. reflexivity.
  - destruct (divide_refuses_exactly_zero_divisors ref_runtime 0 None None
                (Some 6%float) (Some 3%float)) as [_ H].
    rewrite H; [vm_compute; reflexivity | | ]; intros [= E]; vm_compute in E; discriminate.
  - destruct (divide_refuses_exactly_zero_divisors ref_runtime 0 None None
                (Some 1%float) (Some infinity)) as [_ H].
    rewrite H; [vm_compute; reflexivity | | ]; intros [= E]; vm_compute in E; discriminate.
Defined.

(** X18. The calculate tool does not enforce the operands its schema
    requires.  With an arguments object and one of the four operations, a
    call whose [a] or [b] is missing is not refused (a zero [b] under
    "divide" apart): it returns a text whose result is NaN and in which the
    missing operand reads "undefined".  Only a call without any arguments
    object fails, and with a [TypeError], not an [McpError]. *)
Theorem calculate_with_missing_operands
    (R : Tool.Runtime) (now_ms : Z) (tz msg : option string) (op : string)
    (a b : option float) :
  In op (schema_enum "calculate" "operation") ->
  a = None \/ b = None ->
  (op = "divide" -> is_zero b = false) ->
  dispatch_tool R now_ms "calculate" (Some (Tool.mkArguments tz msg (Some op) a b))
    = Ok ("Result: " ++ show_number R a ++ " " ++ op ++ " " ++ show_number R b ++ " = "
          ++ Tool.Number_toString R nan) /\
  dispatch_tool R now_ms "calculate" None = Throw Tool.TypeError.
Proof.
  intros Hop Hmissing Hz. split; [ | reflexivity].
  rewrite dispatch_calculate. unfold calculate_result.
  cbn [Tool.operation Tool.a Tool.b show_string].
  assert (Hnan : forall x y, x = None \/ y = None ->
            (to_number x + to_number y = nan /\ to_number x - to_number y = nan /\
             to_number x * to_number y = nan /\ to_number x / to_number y = nan)%float).
  { intros x y [-> | ->]; simpl.
    - pose proof (nan_absorbs (to_number y)). tauto.
    - pose proof (nan_absorbs (to_number x)). tauto. }
  destruct (Hnan a b Hmissing) as (Hadd & Hsub & Hmul & Hdiv).
  simpl in Hop. destruct Hop as [<- | [<- | [<- | [<- | []]]]]; simpl.
  - rewrite Hadd. reflexivity.
  - rewrite Hsub. reflexivity.
  - rewrite Hmul. reflexivity.
  - rewrite (Hz eq_refl), Hdiv. reflexivity.
Qed.

Lemma calculate_with_missing_operands_witness :
  dispatch_tool ref_runtime 0 "calculate"
    (Some (Tool.mkArguments None None (Some "multiply") None (Some 2%float)))
    = Ok "Result: undefined multiply 2 = NaN".
Proof.
  destruct (calculate_with_missing_operands ref_runtime 0 None None "multiply"
              None (Some 2%float)) as [H _].
  - simpl. auto.
  - left. reflexivity.
  - discriminate.
  - rewrite H. vm_compute. reflexivity.
Defined.

(** X19. The echo tool answers exactly the calls that carry a non-empty
    [message], with the text "Echo: " followed by the message; a call
    whose message is empty or missing, or that has no arguments object at
    all, fails with [InvalidParams] "Message is required". *)
Theorem echo_requires_a_message
    (R : Tool.Runtime) (now_ms : Z) (arguments : option Tool.Arguments) :
  (forall args m, arguments = Some args -> Tool.message args = Some m -> m <> "" ->
     dispatch_tool R now_ms "echo" arguments = Ok ("Echo: " ++ m)) /\
  ((forall args m, arguments = Some args -> Tool.message args = Some m -> m = "") ->
   dispatch_tool R now_ms "echo" arguments = Throw (invalid_params "Message is required")).
Proof.
  rewrite dispatch_echo. cbv zeta. split.
  - intros args m -> -> Hne. apply truthy_str_Some in Hne. rewrite Hne. reflexivity.
  - intros Hempty. destruct arguments as [args | ]; [ | reflexivity].
    destruct (Tool.message args) as [m | ] eqn:Hm; [ | reflexivity].
    rewrite (Hempty args m eq_refl Hm). reflexivity.
Qed.

Lemma echo_requires_a_message_witness :
  dispatch_tool ref_runtime 0 "echo"
    (Some (Tool.mkArguments None (Some "hello") None None None)) = Ok "Echo: hello" /\
  dispatch_tool ref_runtime 0 "echo" None = Throw (invalid_params "Message is required").
Proof.
  split.
  - apply (proj1 (echo_requires_a_message ref_runtime 0
                    (Some (Tool.mkArguments None (Some "hello") None None None)))
             (Tool.mkArguments None (Some "hello") None None None) "hello");
      [reflexivity | reflexivity | discriminate].
  - apply (proj2 (echo_requires_a_message ref_runtime 0 None)). intros args m [=].
Defined.

(** X20. The get_server_time tool falls back to "UTC": a call without
    arguments, without a [timezone], or with an empty one is answered
    exactly as a call that asks for "UTC"; and a time zone the runtime does
    not know makes the call fail with a [RangeError], not an [McpError]. *)
Theorem server_time_defaults_to_utc
    (R : Tool.Runtime) (now_ms : Z) (arguments : option Tool.Arguments) :
  let utc := Some (Tool.mkArguments (Some "UTC") None None None None) in
  ((forall args tz, arguments = Some args -> Tool.timezone args = Some tz -> tz = "") ->
   dispatch_tool R now_ms "get_server_time" arguments
     = dispatch_tool R now_ms "get_server_time" utc) /\
  (forall args tz, arguments = Some args -> Tool.timezone args = Some tz -> tz <> "" ->
     Tool.toLocaleString R now_ms tz = None ->
     dispatch_tool R now_ms "get_server_time" arguments = Throw Tool.RangeError).
Proof.
  intros utc. rewrite !dispatch_get_server_time. cbv zeta. split.
  - intros Hempty. destruct arguments as [args | ]; [ | reflexivity].
    destruct (Tool.timezone args) as [tz | ] eqn:Htz; [ | reflexivity].
    rewrite (Hempty args tz eq_refl Htz). reflexivity.
  - intros args tz -> -> Hne Hunknown.
    apply truthy_str_Some in Hne. rewrite Hne. simpl. rewrite Hunknown. reflexivity.
Qed.

Lemma server_time_defaults_to_utc_witness :
  dispatch_tool ref_runtime 1000 "get_server_time" None
    = Ok "Current server time: 1000 ms (UTC)" /\
  dispatch_tool ref_runtime 1000 "get_server_time"
    (Some (Tool.mkArguments (Some "Mars/Olympus") None None None None))
    = Throw Tool.RangeError.
Proof.
  destruct (server_time_defaults_to_utc ref_runtime 1000 None) as [Hdefault _].
  destruct (server_time_defaults_to_utc ref_runtime 1000
              (Some (Tool.mkArguments (Some "Mars/Olympus") None None None None)))
    as [_ Hunknown].
  split.
  - rewrite Hdefault; [vm_compute; reflexivity | intros args tz [=]].
  - apply (Hunknown _ "Mars/Olympus" eq_refl eq_refl); [discriminate | reflexivity].
Defined.

(** ** The /mcp route as a whole *)




(** X22. The later revision extends the earlier one: every tools/call
    request the API-key-only handler lets through is answered by the later
    handler in exactly the same way, whatever the token store holds and
    whatever bearer token the request also carries. *)
Theorem later_revision_extends_earlier
    (R : Tool.Runtime) (J : Jwt.JwtLib) (validTokens : gset string) (now_ms : Z)
    (meta : option Mcp.Meta) (name : string) (arguments : option Tool.Arguments) :
  callTool_v1 R now_ms meta name arguments <> Throw (Tool.McpThrown invalid_api_key_error) ->
  callTool R J validTokens now_ms meta name arguments
    = callTool_v1 R now_ms meta name arguments.
Proof.
  intros Hv1. unfold callTool_v1 in *.
  destruct (validateApiKey (getApiKeyFromMeta meta)) as [[] | e] eqn:E.
  - apply revisions_accept_the_same_keys_helper in E. unfold callTool.
    destruct meta as [m | ]; [ | discriminate]. cbn in E.
    cbn [getCredentialsFromMeta]. rewrite E. reflexivity.
  - destruct Hv1.
    destruct (revisions_accept_the_same_keys_helper (getApiKeyFromMeta meta))
      as [_ Hthrow].
    rewrite Hthrow in E by (rewrite E; discriminate). congruence.
Qed.

Lemma later_revision_extends_earlier_witness :
  callTool ref_runtime RefJwt.lib ∅ 0
    (Some (Mcp.mkMeta (Some VALID_API_KEY) (Some "not-a-real-token"))) "calculate"
    (Some (Tool.mkArguments None None (Some "subtract") (Some 5%float) (Some 7%float)))
    = Ok "Result: 5 subtract 7 = -2".
Proof.
  rewrite (later_revision_extends_earlier ref_runtime RefJwt.lib ∅ 0
             (Some (Mcp.mkMeta (Some VALID_API_KEY) (Some "not-a-real-token"))) "calculate"
             (Some (Tool.mkArguments None None (Some "subtract") (Some 5%float)
                      (Some 7%float)))).
  - vm_compute. reflexivity.
  - vm_compute. discriminate.
Defined.
